(** * caddy-tftp: a shallow embedding of [internal/tftp.go]

    The development follows the current revision of the file (the one with
    [safePath], access logging and the "server stopped" record).  Go strings
    are byte sequences and are modelled as [list ascii]; the functions of
    Go's [strings] and [path/filepath] packages that [safePath] and
    [Provision] call are embedded as Go defines them on Unix (separator
    [/], no volume names).  Effects (the process working directory, the
    file system, the clock, the loggers, the sockets and the serving tasks)
    are threaded through an explicit [World]. *)

From Stdlib Require Import Ascii String ZArith NArith Lia.
From stdpp Require Import base option list gmap strings pretty.

Set Default Proof Using "Type".

(** ** Go strings *)

Abbreviation gostring := (list ascii).

Coercion list_ascii_of_string : string >-> list.

Module strings.

(** [strings.HasPrefix(s, prefix)]:
    [len(s) >= len(prefix) && s[:len(prefix)] == prefix]. *)
Definition HasPrefix (s prefix : gostring) : bool :=
  bool_decide (length prefix ≤ length s) &&
  bool_decide (take (length prefix) s = prefix).

(** [strings.Join(elems, sep)]. *)
Fixpoint Join (elems : list gostring) (sep : gostring) : gostring :=
  match elems with
  | [] => []
  | [e] => e
  | e :: rest => e ++ sep ++ Join rest sep
  end.

End strings.

(** ** Network addresses (caddy.NetworkAddress) *)

Record NetworkAddress := mkNetworkAddress {
  Network : gostring;
  Host : gostring;
  StartPort : N;
  EndPort : N;
}.

Global Instance NetworkAddress_eq_dec : EqDecision NetworkAddress.
Proof. solve_decision. Defined.

(** [na.PortRangeSize()]. *)
Definition PortRangeSize (na : NetworkAddress) : N :=
  if (EndPort na <? StartPort na)%N then 0%N
  else (EndPort na - StartPort na + 1)%N.

(** ** Errors *)

Inductive Errno := ENOENT | EEXIST | EACCES | EISDIR | ENOSPC | EIO | EADDRINUSE.

Inductive error :=
| errorString (msg : gostring)            (* errors.New, fmt.Errorf *)
| PathError (op path : gostring) (e : Errno)  (* *fs.PathError *)
| SyscallError (call : gostring) (e : Errno)  (* *os.SyscallError *)
| TransferError (msg : gostring)          (* an error of the transport layer *)
| FailedToListen (addr : NetworkAddress) (cause : error)
    (* fmt.Errorf("tftp: failed to listen on %s: %v", addr, cause) *)
| FailedToListenNil (addr : NetworkAddress).
    (* the same with a nil cause *)

Global Instance Errno_eq_dec : EqDecision Errno.
Proof. solve_decision. Defined.

(** ** path/filepath on Unix *)

Module filepath.

Definition Separator : ascii := "/"%char.

Definition IsPathSeparator (c : ascii) : bool := bool_decide (c = Separator).

Definition is_dot (c : ascii) : bool := bool_decide (c = "."%char).

(** [r == n || os.IsPathSeparator(path[r])] for the suffix [path[r:]]. *)
Definition at_boundary (l : gostring) : bool :=
  match l with
  | [] => true
  | c :: _ => IsPathSeparator c
  end.

(** The output buffer [out] of [Clean] is a [lazybuf]; what the loop can
    observe of it is the bytes [buf[0..w)].  They are kept here as a list
    with the byte written last in front, so [out.w] is the length of the
    list, [out.append(c)] is [c :: out] and [out.string()] is [reverse out]. *)

(** The [..] case when [out.w > dotdot]:
    [out.w--; for out.w > dotdot && !os.IsPathSeparator(out.index(out.w)) { out.w-- }].
    The byte at index [out.w] is the one just dropped from the list. *)
Fixpoint backtrack (out : list ascii) (dotdot : nat) : list ascii :=
  match out with
  | [] => []
  | x :: rest =>
      if bool_decide (dotdot < length rest) && negb (IsPathSeparator x)
      then backtrack rest dotdot
      else rest
  end.

(** [if rooted && out.w != 1 || !rooted && out.w != 0 { out.append(Separator) }] *)
Definition add_slash (rooted : bool) (out : list ascii) : list ascii :=
  if (rooted && negb (bool_decide (length out = 1)))
     || (negb rooted && negb (bool_decide (length out = 0)))
  then Separator :: out
  else out.

(** [for ; r < n && !os.IsPathSeparator(path[r]); r++ { out.append(path[r]) }],
    followed by the rest [k] of the outer loop. *)
Definition copy_with (k : gostring → list ascii → list ascii)
  : gostring → list ascii → list ascii :=
  fix copy (l : gostring) (o : list ascii) {struct l} : list ascii :=
    match l with
    | [] => o
    | x :: l' => if IsPathSeparator x then k l o else copy l' (x :: o)
    end.

(** The loop [for r < n { switch ... }] of [Clean], on the unread suffix
    [path[r:]], the buffer and [dotdot]; it returns the final buffer. *)
Fixpoint clean_loop (rooted : bool) (path : gostring) (out : list ascii)
  (dotdot : nat) {struct path} : list ascii :=
  match path with
  | [] => out
  | c :: rest =>
      if IsPathSeparator c then
        (* empty path element *)
        clean_loop rooted rest out dotdot
      else if is_dot c && at_boundary rest then
        (* . element *)
        clean_loop rooted rest out dotdot
      else
        let element :=
          (* real path element: add slash if needed, copy element *)
          copy_with (fun l o => clean_loop rooted l o dotdot)
                    rest (c :: add_slash rooted out) in
        match rest with
        | c1 :: rest' =>
            if is_dot c && is_dot c1 && at_boundary rest' then
              (* .. element: remove to last separator *)
              if bool_decide (dotdot < length out) then
                (* can backtrack *)
                clean_loop rooted rest' (backtrack out dotdot) dotdot
              else if negb rooted then
                (* cannot backtrack, but not rooted, so append .. element *)
                let out1 :=
                  if bool_decide (0 < length out) then Separator :: out else out in
                let out2 := "."%char :: "."%char :: out1 in
                clean_loop rooted rest' out2 (length out2)
              else
                clean_loop rooted rest' out dotdot
            else element
        | [] => element
        end
  end.

(** [filepath.Clean]. *)
Definition Clean (path : gostring) : gostring :=
  match path with
  | [] => "."%string
  | c :: rest =>
      let rooted := IsPathSeparator c in
      let out :=
        if rooted then clean_loop true rest [Separator] 1
        else clean_loop false path [] 0 in
      (* Turn empty string into "." *)
      if bool_decide (length out = 0) then "."%string else reverse out
  end.

(** [filepath.Join]: the first non-empty element onwards, joined by the
    separator and cleaned; the empty string when every element is empty. *)
Fixpoint Join (elem : list gostring) : gostring :=
  match elem with
  | [] => []
  | e :: rest =>
      if bool_decide (e = []) then Join rest
      else Clean (strings.Join elem [Separator])
  end.

(** [filepath.IsAbs]. *)
Definition IsAbs (path : gostring) : bool :=
  strings.HasPrefix path [Separator].

(** [filepath.Abs]; [getwd] is what [os.Getwd()] returns. *)
Definition Abs (getwd : gostring * option error) (path : gostring)
  : gostring * option error :=
  if IsAbs path then (Clean path, None)
  else
    match getwd with
    | (_, Some err) => ([], Some err)
    | (wd, None) => (Join [wd; path], None)
    end.

End filepath.

(** ** Paths as sequences of segments

    The vocabulary in which the properties of [Clean] are stated: the
    segments between separators, and the stack of names a rooted path
    resolves to. *)

Module segs.
Import filepath.

(** [strings.Split(p, "/")]. *)
Fixpoint segments (p : gostring) : list gostring :=
  match p with
  | [] => [[]]
  | c :: p' =>
      if IsPathSeparator c then [] :: segments p'
      else
        match segments p' with
        | [] => [[c]]
        | s :: ss => (c :: s) :: ss
        end
  end.

(** A byte of a segment. *)
Abbreviation nonsep := (λ c : ascii, c ≠ Separator).

Definition dot : gostring := "."%string.
Definition dotdot : gostring := ".."%string.

(** The effect of one segment on the buffer and on [dotdot]. *)
Definition elem_step (rooted : bool) (st : list ascii * nat) (seg : gostring)
  : list ascii * nat :=
  let '(out, dd) := st in
  if bool_decide (seg = []) || bool_decide (seg = dot) then (out, dd)
  else if bool_decide (seg = dotdot) then
    if bool_decide (dd < length out) then (backtrack out dd, dd)
    else if negb rooted then
      let out1 := if bool_decide (0 < length out) then Separator :: out else out in
      let out2 := "."%char :: "."%char :: out1 in
      (out2, length out2)
    else (out, dd)
  else (reverse seg ++ add_slash rooted out, dd).

(** A name: a segment that [Clean] keeps in a rooted path. *)
Definition is_name (seg : gostring) : Prop :=
  seg ≠ [] ∧ seg ≠ dot ∧ seg ≠ dotdot ∧ Forall nonsep seg.

Global Instance is_name_dec seg : Decision (is_name seg).
Proof. unfold is_name. apply _. Defined.

(** One segment against the stack of names of a rooted path, the name
    pushed last in front. *)
Definition resolve_step (st : list gostring) (seg : gostring) : list gostring :=
  if bool_decide (seg = []) || bool_decide (seg = dot) then st
  else if bool_decide (seg = dotdot) then tail st
  else seg :: st.

Definition resolve (segs : list gostring) (st : list gostring) : list gostring :=
  foldl resolve_step st segs.

(** The buffer that holds the rooted path with the names [st]. *)
Fixpoint buf (st : list gostring) : list ascii :=
  match st with
  | [] => [Separator]
  | s :: st' =>
      reverse s ++ match st' with
                   | [] => [Separator]
                   | _ => Separator :: buf st'
                   end
  end.

(** The rooted path with the names [names], first name first. *)
Definition path_of (names : list gostring) : gostring :=
  Separator :: strings.Join names [Separator].

(** The names of a path: its non-empty segments. *)
Definition names_of (p : gostring) : list gostring :=
  filter (λ s, s ≠ []) (segments p).

(** [root] is a path-prefix of [p]: the names of [root] are the first
    names of [p]. *)
Definition HasPathPrefix (p root : gostring) : Prop :=
  names_of root `prefix_of` names_of p.

Global Instance HasPathPrefix_dec p root : Decision (HasPathPrefix p root).
Proof. unfold HasPathPrefix. apply _. Defined.

End segs.

(** ** Remote addresses *)

(** The remote address of a transfer ([net.UDPAddr]); the IP is kept as
    the text [ip.String()]. *)
Record UDPAddr := mkUDPAddr {
  IP : gostring;
  Port : Z;
}.

(** ** Loggers (go.uber.org/zap) *)

Inductive Level := DebugLevel | InfoLevel | ErrorLevel.

Inductive FieldValue :=
| StringValue (s : gostring)
| IntValue (n : Z)
| DurationString (d : Z)    (* the text [d.String()] of the duration [d] *)
| AddressString (a : NetworkAddress).  (* the text [a.String()] *)

Inductive Message :=
| Text (s : gostring)
| ErrorText (e : error).    (* the text [err.Error()] *)

Record Logger := mkLogger { logger_name : gostring }.

Record Entry := mkEntry {
  entry_logger : gostring;
  entry_level : Level;
  entry_msg : Message;
  entry_fields : list (gostring * FieldValue);
}.

Module zap.

Definition String (key val : gostring) : gostring * FieldValue :=
  (key, StringValue val).
Definition Int (key : gostring) (val : Z) : gostring * FieldValue :=
  (key, IntValue val).
Definition Int64 (key : gostring) (val : Z) : gostring * FieldValue :=
  (key, IntValue val).

(** [log.Named(s)]: a new segment of the logger's name, segments joined
    by periods; the empty segment changes nothing. *)
Definition Named (log : Logger) (s : gostring) : Logger :=
  if bool_decide (s = []) then log
  else if bool_decide (logger_name log = []) then mkLogger s
  else mkLogger (logger_name log ++ "."%string ++ s).

End zap.

(** ** The world the program runs in *)

(** What [addr.Listen] gives back. *)
Inductive ListenResult :=
| ListenPacketConn            (* a [net.PacketConn] *)
| ListenOther                 (* a listener that is not a [net.PacketConn] *)
| ListenError (err : error).

(** A serving task: the function handed to [errGroup.Go] for one server. *)
Record Task := mkTask {
  task_server : gostring;          (* s.name *)
  task_addr : NetworkAddress;      (* the address its listener is bound to *)
}.

Global Instance Task_eq_dec : EqDecision Task.
Proof. solve_decision. Defined.

Inductive Event :=
| EvLog (e : Entry)
| EvOpen (path : gostring) (flag : Z)  (* os.Open / os.OpenFile was called *)
| EvReadFrom (path : gostring) (n : Z) (* rf.ReadFrom(file) ran *)
| EvWriteTo (path : gostring) (n : Z)  (* wt.WriteTo(file) ran *)
| EvListen (addr : NetworkAddress) (portOffset : N)
| EvGo (t : Task)                      (* errGroup.Go *)
| EvShutdown (name : gostring)         (* s.Shutdown() *)
| EvWait.                              (* errGroup.Wait() *)

Record World := mkWorld {
  getwd : gostring * option error;     (* what os.Getwd() returns *)
  files : gmap gostring (list ascii);  (* the regular files, by path *)
  open_fault : gostring → option Errno;
    (* opening this path fails for a reason other than the file being
       absent or present: permissions, a missing directory, ... *)
  now : Z;                             (* time.Now(), in nanoseconds *)
  net_listen : list NetworkAddress → NetworkAddress → N → ListenResult;
    (* the outcome of binding an address, given those already bound *)
  bound : list NetworkAddress;         (* the addresses bound so far *)
  trace : list Event;
}.

Definition set_files (f : gmap gostring (list ascii)) (w : World) : World :=
  mkWorld (getwd w) f (open_fault w) (now w) (net_listen w) (bound w)
          (trace w).
Definition set_now (t : Z) (w : World) : World :=
  mkWorld (getwd w) (files w) (open_fault w) t (net_listen w) (bound w)
          (trace w).
Definition set_bound (b : list NetworkAddress) (w : World) : World :=
  mkWorld (getwd w) (files w) (open_fault w) (now w) (net_listen w) b
          (trace w).
Definition set_trace (t : list Event) (w : World) : World :=
  mkWorld (getwd w) (files w) (open_fault w) (now w) (net_listen w) (bound w)
          t.

(** Computations that read and change the world. *)
Definition M (A : Type) : Type := World → A * World.

Definition ret {A} (a : A) : M A := λ w, (a, w).
Definition bind {A B} (m : M A) (k : A → M B) : M B :=
  λ w, let '(a, w') := m w in k a w'.

Notation "'let!' x := m 'in' k" := (bind m (λ x, k))
  (at level 10, x pattern, m at level 100, k at level 200).

Definition emit (e : Event) : M unit :=
  λ w, (tt, set_trace (trace w ++ [e]) w).

Definition log_entry (log : Logger) (lvl : Level) (msg : Message)
  (fields : list (gostring * FieldValue)) : M unit :=
  emit (EvLog (mkEntry (logger_name log) lvl msg fields)).

Definition time_Now : M Z := λ w, (now w, w).

(** ** Files (package os) *)

Module os.

Definition O_RDONLY : Z := 0.
Definition O_WRONLY : Z := 1.
Definition O_RDWR : Z := 2.
Definition O_CREATE : Z := 64.
Definition O_EXCL : Z := 128.
Definition O_TRUNC : Z := 512.

Definition has_flag (flag bit : Z) : bool := negb (Z.land flag bit =? 0)%Z.

(** [os.OpenFile(name, flag, perm)]; the open file is named by its path.
    With [O_CREATE|O_EXCL] the file must not exist. *)
Definition OpenFile (name : gostring) (flag : Z) (perm : Z)
  : M (gostring * option error) :=
  let! _ := emit (EvOpen name flag) in
  λ w,
    match open_fault w name with
    | Some e => (([], Some (PathError "open"%string name e)), w)
    | None =>
        match files w !! name with
        | Some content =>
            if has_flag flag O_CREATE && has_flag flag O_EXCL then
              (([], Some (PathError "open"%string name EEXIST)), w)
            else if has_flag flag O_TRUNC then
              ((name, None), set_files (<[name := []]> (files w)) w)
            else ((name, None), w)
        | None =>
            if has_flag flag O_CREATE then
              ((name, None), set_files (<[name := []]> (files w)) w)
            else (([], Some (PathError "open"%string name ENOENT)), w)
        end
    end.

(** [os.Open(name)] is [OpenFile(name, O_RDONLY, 0)]. *)
Definition Open (name : gostring) : M (gostring * option error) :=
  OpenFile name O_RDONLY 0.

End os.

(** ** The transfers handed over by the transport layer *)

(** The [io.ReaderFrom] of a read request.  [rf_remote] is the remote
    address when [rf] is a [tftp.OutgoingTransfer]; [rf_send] is what
    [rf.ReadFrom(file)] does with the content of the file: the number of
    bytes sent, the error, and the time it took. *)
Record ReaderFrom := mkReaderFrom {
  rf_remote : option UDPAddr;
  rf_send : list ascii → Z * option error * Z;
}.

(** The [io.WriterTo] of a write request.  [wt.WriteTo(file)] writes
    [wt_data] to the file and returns its length and [wt_err]. *)
Record WriterTo := mkWriterTo {
  wt_remote : option UDPAddr;
  wt_data : list ascii;
  wt_err : option error;
  wt_elapsed : Z;
}.

Definition ReadFrom (rf : ReaderFrom) (file : gostring) : M (Z * option error) :=
  λ w,
    let content := default [] (files w !! file) in
    let '(n, err, dt) := rf_send rf content in
    ((n, err), set_trace (trace w ++ [EvReadFrom file n]) (set_now (now w + dt)%Z w)).

Definition WriteTo (wt : WriterTo) (file : gostring) : M (Z * option error) :=
  λ w,
    let old := default [] (files w !! file) in
    let n := Z.of_nat (length (wt_data wt)) in
    ((n, wt_err wt),
     set_trace (trace w ++ [EvWriteTo file n])
       (set_now (now w + wt_elapsed wt)%Z
          (set_files (<[file := wt_data wt ++ drop (length (wt_data wt)) old]> (files w)) w))).

(** ** The server *)

(** The configuration of one server. *)
Record Server := mkServer {
  Listen : gostring;
  Root : gostring;
  Timeout : Z;
  Logs : bool;
}.

Record tftpServer := mktftpServer {
  tftp_timeout : Z;            (* of the embedded *tftp.Server *)
  name : gostring;
  root : gostring;
  addr : NetworkAddress;
  log : Logger;
  accessLog : option Logger;   (* a pointer, [None] when nil *)
}.

(** The text of a nil [net.IP]. *)
Definition nil_IP : gostring := "<nil>"%string.

Definition unsafe_filename : error :=
  errorString "unsafe or invalid filename specified"%string.

Definition safePath (s : tftpServer) (filename : gostring)
  : M (gostring * option error) :=
  let p := filepath.Join [root s; filename] in
  let! (c, err) := (λ w, (filepath.Abs (getwd w) p, w)) in
  let! _ := log_entry (log s) DebugLevel (Text "sanitized path join"%string)
              [zap.String "root"%string (root s);
               zap.String "filename"%string filename;
               zap.String "result"%string c] in
  if bool_decide (is_Some err) || negb (strings.HasPrefix c (root s))
  then ret (c, Some unsafe_filename)
  else ret (c, None).

(** The record [safePath] writes for the result [c]. *)
Definition sanitized_entry (s : tftpServer) (filename c : gostring) : Entry :=
  mkEntry (logger_name (log s)) DebugLevel (Text "sanitized path join"%string)
    [zap.String "root"%string (root s);
     zap.String "filename"%string filename;
     zap.String "result"%string c].

(** The deferred function of the handlers, run with the final value of
    [n] when the handler returns. *)
Definition access_record (al : Logger) (remote : option UDPAddr) (start : Z)
  (method bytes_key filename : gostring) (n : Z) : M unit :=
  let remoteIP := match remote with Some a => IP a | None => nil_IP end in
  let remotePort := match remote with Some a => Port a | None => 0%Z end in
  let! end_ := time_Now in
  let d := (end_ - start)%Z in
  log_entry al InfoLevel (Text "handled request"%string)
    [zap.String "remote_ip"%string remoteIP;
     zap.Int "remote_port"%string remotePort;
     zap.String "method"%string method;
     zap.String "uri"%string filename;
     zap.Int64 bytes_key n;
     (("duration"%string : gostring), DurationString d)].

(** The access-log record of a transfer. *)
Definition access_entry (al : Logger) (remote : option UDPAddr)
  (method bytes_key filename : gostring) (n d : Z) : Entry :=
  mkEntry (logger_name al) InfoLevel (Text "handled request"%string)
    [zap.String "remote_ip"%string (match remote with Some a => IP a | None => nil_IP end);
     zap.Int "remote_port"%string (match remote with Some a => Port a | None => 0%Z end);
     zap.String "method"%string method;
     zap.String "uri"%string filename;
     zap.Int64 bytes_key n;
     (("duration"%string : gostring), DurationString d)].

(** The records of level Info; in a handler only the access log writes
    them. *)
Definition is_info (ev : Event) : bool :=
  match ev with
  | EvLog e => match entry_level e with InfoLevel => true | _ => false end
  | _ => false
  end.

(** The transfers of bytes. *)
Definition is_transfer (ev : Event) : bool :=
  match ev with
  | EvReadFrom _ _ | EvWriteTo _ _ => true
  | _ => false
  end.

(** The byte count of the transfer in the events of a handler, zero when
    there was none. *)
Fixpoint transferred (evs : list Event) : Z :=
  match evs with
  | [] => 0%Z
  | EvReadFrom _ n :: _ | EvWriteTo _ n :: _ => n
  | _ :: evs' => transferred evs'
  end.

(** The statements of [readHandler] after the deferred function is
    registered; they give the final value of [n] and the error returned. *)
Definition read_body (s : tftpServer) (filename : gostring) (rf : ReaderFrom)
  : M (Z * option error) :=
  let! (p, err) := safePath s filename in
  match err with
  | Some e =>
      let! _ := log_entry (log s) ErrorLevel (ErrorText e)
                  [zap.String "filename"%string filename] in
      ret (0%Z, Some e)
  | None =>
      let! (file, err) := os.Open p in
      match err with
      | Some e =>
          let! _ := log_entry (log s) ErrorLevel (ErrorText e)
                      [zap.String "filename"%string filename] in
          ret (0%Z, Some e)
      | None =>
          let! (n, err) := ReadFrom rf file in
          match err with
          | Some e =>
              let! _ := log_entry (log s) ErrorLevel (ErrorText e)
                          [zap.String "filename"%string filename] in
              ret (n, Some e)
          | None => ret (n, None)
          end
      end
  end.

(** The same for [writeHandler]. *)
Definition write_body (s : tftpServer) (filename : gostring) (wt : WriterTo)
  : M (Z * option error) :=
  let! (p, err) := safePath s filename in
  match err with
  | Some e =>
      let! _ := log_entry (log s) ErrorLevel (ErrorText e)
                  [zap.String "filename"%string filename] in
      ret (0%Z, Some e)
  | None =>
      let! (file, err) :=
        os.OpenFile p (Z.lor os.O_WRONLY (Z.lor os.O_CREATE os.O_EXCL)) 420 in
      match err with
      | Some e =>
          let! _ := log_entry (log s) ErrorLevel (ErrorText e)
                      [zap.String "filename"%string filename] in
          ret (0%Z, Some e)
      | None =>
          let! (n, err) := WriteTo wt file in
          match err with
          | Some e =>
              let! _ := log_entry (log s) ErrorLevel (ErrorText e)
                          [zap.String "filename"%string filename] in
              ret (n, Some e)
          | None => ret (n, None)
          end
      end
  end.

(** [readHandler] is called when a client starts a download. *)
Definition readHandler (s : tftpServer) (filename : gostring) (rf : ReaderFrom)
  : M (option error) :=
  let! deferred :=
    match accessLog s with
    | Some al =>
        let! start := time_Now in
        ret (Some (access_record al (rf_remote rf) start
                     "GET"%string "bytes_written"%string filename))
    | None => ret None
    end in
  let! (n, result) := read_body s filename rf in
  match deferred with
  | Some d => let! _ := d n in ret result
  | None => ret result
  end.

(** [writeHandler] is called when a client starts an upload. *)
Definition writeHandler (s : tftpServer) (filename : gostring) (wt : WriterTo)
  : M (option error) :=
  let! deferred :=
    match accessLog s with
    | Some al =>
        let! start := time_Now in
        ret (Some (access_record al (wt_remote wt) start
                     "PUT"%string "bytes_read"%string filename))
    | None => ret None
    end in
  let! (n, result) := write_body s filename wt in
  match deferred with
  | Some d => let! _ := d n in ret result
  | None => ret result
  end.

(** The run of the deferred function, if it was registered. *)
Definition run_deferred (al : option Logger) (remote : option UDPAddr)
  (method bytes_key filename : gostring) (start : Z)
  (r : Z * option error * World) : option error * World :=
  let '(n, result, w) := r in
  match al with
  | Some al =>
      (result,
       set_trace (trace w ++ [EvLog (access_entry al remote method bytes_key filename n
                                       (now w - start))]) w)
  | None => (result, w)
  end.

(** ** The transport layer and the task group *)

Module tftp.

Definition defaultTimeout : Z := 5000000000.

(** [Server.SetTimeout]: a timeout that is not positive gives
    the default. *)
Definition SetTimeout (t : Z) : Z :=
  if (t <=? 0)%Z then defaultTimeout else t.

End tftp.

(** What a call that can block or panic does. *)
Inductive Outcome (A : Type) :=
| Returns (a : A)
| Blocks
| Panics.
Arguments Returns {A} a.
Arguments Blocks {A}.
Arguments Panics {A}.

Module errgroup.

(** An [errgroup.Group]: the calls of [Go] that have not returned (the
    wait group) and the first non-nil error returned so far. *)
Record Group := mkGroup {
  wg : list Task;
  err : option error;
}.

Definition Go (g : Group) (t : Task) : Group :=
  mkGroup (wg g ++ [t]) (err g).

Fixpoint remove_first (t : Task) (l : list Task) : list Task :=
  match l with
  | [] => []
  | x :: l' => if bool_decide (x = t) then l' else x :: remove_first t l'
  end.

(** The function of task [t] returns [e]: the error is recorded if it is
    the first one, and the task leaves the wait group. *)
Definition done (g : Group) (te : Task * option error) : Group :=
  let '(t, e) := te in
  if bool_decide (t ∈ wg g) then
    mkGroup (remove_first t (wg g))
            (match err g with Some e0 => Some e0 | None => e end)
  else g.

(** [g.Wait()] once the tasks of [sched] have returned, in that order. *)
Definition Wait (g : Group) (sched : list (Task * option error))
  : Group * Outcome (option error) :=
  let g' := foldl done g sched in
  (g', match wg g' with [] => Returns (err g') | _ => Blocks end).

End errgroup.

(** The first non-nil error of a sequence of results. *)
Fixpoint first_error (rs : list (Task * option error)) : option error :=
  match rs with
  | [] => None
  | (_, Some e) :: _ => Some e
  | (_, None) :: rs' => first_error rs'
  end.

(** ** Listener addresses (package caddy) *)

Module caddy.

(** [strings.Cut(s, sep)] for a separator of one byte. *)
Fixpoint Cut (s : gostring) (sep : ascii) : gostring * gostring * bool :=
  match s with
  | [] => ([], [], false)
  | c :: s' =>
      if bool_decide (c = sep) then ([], s', true)
      else let '(before, after, found) := Cut s' sep in (c :: before, after, found)
  end.

Definition is_digit (c : ascii) : bool :=
  (48 <=? nat_of_ascii c) && (nat_of_ascii c <=? 57).

Fixpoint digits (acc : N) (s : gostring) : option N :=
  match s with
  | [] => Some acc
  | c :: s' =>
      if is_digit c
      then digits (acc * 10 + N.of_nat (nat_of_ascii c - 48))%N s'
      else None
  end.

(** [strconv.ParseUint(s, 10, 16)]. *)
Definition ParseUint16 (s : gostring) : option N :=
  match s with
  | [] => None
  | _ => match digits 0 s with
         | Some n => if (n <=? 65535)%N then Some n else None
         | None => None
         end
  end.

Definition ToLower (s : gostring) : gostring :=
  map (λ c, let n := nat_of_ascii c in
            if (65 <=? n) && (n <=? 90) then ascii_of_nat (n + 32) else c) s.

Definition is_space (c : ascii) : bool :=
  let n := nat_of_ascii c in (n =? 32) || ((9 <=? n) && (n <=? 13)).

Fixpoint TrimLeft (s : gostring) : gostring :=
  match s with
  | [] => []
  | c :: s' => if is_space c then TrimLeft s' else s
  end.

Definition TrimSpace (s : gostring) : gostring :=
  reverse (TrimLeft (reverse (TrimLeft s))).

Definition IsUnixNetwork (netw : gostring) : bool :=
  bool_decide (netw ∈ [("unix"%string : gostring); ("unixgram"%string : gostring);
                       ("unixpacket"%string : gostring)]).

Definition IsFdNetwork (netw : gostring) : bool :=
  bool_decide (netw ∈ [("fd"%string : gostring); ("fdgram"%string : gostring)]).

Definition colons (a : gostring) : nat :=
  length (filter (λ c, c = ":"%char) a).

(** [SplitNetworkAddress] on addresses without square brackets: with
    exactly one colon [net.SplitHostPort] splits at it; otherwise it
    fails and the whole text is the host. *)
Definition SplitNetworkAddress (a : gostring) : gostring * gostring * gostring :=
  let '(beforeSlash, afterSlash, slashFound) := Cut a "/"%char in
  let network := if slashFound then ToLower (TrimSpace beforeSlash) else [] in
  let a := if slashFound then afterSlash else a in
  if slashFound && (IsUnixNetwork network || IsFdNetwork network) then
    (network, a, [])
  else if bool_decide (colons a = 1) then
    let '(host, port, _) := Cut a ":"%char in (network, host, port)
  else (network, a, []).

(** [ParseNetworkAddressWithDefaults] on addresses without square
    brackets; the check of the permission bits of a unix socket is left
    out. *)
Definition ParseNetworkAddressWithDefaults (addr defaultNetwork : gostring)
  (defaultPort : N) : NetworkAddress * option error :=
  let '(network, host, port) := SplitNetworkAddress addr in
  let network := if bool_decide (network = []) then defaultNetwork else network in
  let none := mkNetworkAddress [] [] 0 0 in
  if IsUnixNetwork network || IsFdNetwork network then
    (mkNetworkAddress network host 0 0, None)
  else if bool_decide (port = []) then
    (mkNetworkAddress network host defaultPort defaultPort, None)
  else
    let '(before, after, found) := Cut port "-"%char in
    let after := if found then after else before in
    match ParseUint16 before with
    | None => (none, Some (errorString "invalid start port"%string))
    | Some start =>
        match ParseUint16 after with
        | None => (none, Some (errorString "invalid end port"%string))
        | Some end_ =>
            if (end_ <? start)%N then
              (none, Some (errorString "end port must not be less than start port"%string))
            else (mkNetworkAddress network host start end_, None)
        end
    end.

(** [s.addr.Listen(app.ctx, portOffset, net.ListenConfig{})]. *)
Definition Listen (a : NetworkAddress) (portOffset : N) : M ListenResult :=
  let! _ := emit (EvListen a portOffset) in
  λ w,
    match net_listen w (bound w) a portOffset with
    | ListenError e => (ListenError e, w)
    | r => (r, set_bound (bound w ++ [a]) w)
    end.

End caddy.

(** ** The app *)

Record Context := mkContext { ctx_logger : Logger }.

(** [Servers] is a Go map; it is kept as the list of its entries in the
    order in which the [range] statement of [Provision] visits them. *)
Record TFTP := mkTFTP {
  Servers : list (gostring * Server);
  servers : list tftpServer;
  ctx : option Context;
  errGroup : option errgroup.Group;
}.

Definition only_udp : error :=
  errorString "only 'udp' is supported in the listener addr"%string.

Definition udp : gostring := "udp"%string.

Section provision.

(** [caddy.ParseNetworkAddressWithDefaults]. *)
Variable ParseNetworkAddressWithDefaults :
  gostring → gostring → N → NetworkAddress * option error.

(** The body of the loop of [Provision] for the entries still to visit. *)
Fixpoint Provision_range (c : Context) (entries : list (gostring * Server))
  (acc : list tftpServer) : M (list tftpServer * option error) :=
  match entries with
  | [] => ret (acc, None)
  | (name, srv) :: rest =>
      let! (root, err) := (λ w, (filepath.Abs (getwd w) (Root srv), w)) in
      match err with
      | Some e => ret (acc, Some e)
      | None =>
          let '(addr, err) := ParseNetworkAddressWithDefaults (Listen srv) udp 69 in
          match err with
          | Some e => ret (acc, Some e)
          | None =>
              if negb (bool_decide (Network addr = udp)) then
                ret (acc, Some only_udp)
              else
                let log := zap.Named (ctx_logger c) name in
                let s := {| tftp_timeout := tftp.SetTimeout (Timeout srv);
                            name := name;
                            root := root;
                            addr := addr;
                            log := log;
                            accessLog := Some (zap.Named log "access"%string) |} in
                Provision_range c rest (acc ++ [s])
          end
      end
  end.

Definition Provision (app : TFTP) (c : Context) : M (TFTP * option error) :=
  let! (servers', err) := Provision_range c (Servers app) (servers app) in
  ret (mkTFTP (Servers app) servers' (Some c) (errGroup app), err).

(** The address an entry of the configuration parses to. *)
Definition parsed (e : gostring * Server) : NetworkAddress :=
  (ParseNetworkAddressWithDefaults (Listen e.2) udp 69).1.

(** An entry passes the checks of the loop: its root resolves, its
    listener address parses, and the network is udp. *)
Definition entry_ok (w : World) (e : gostring * Server) : Prop :=
  (filepath.Abs (getwd w) (Root e.2)).2 = None ∧
  (ParseNetworkAddressWithDefaults (Listen e.2) udp 69).2 = None ∧
  Network (parsed e) = udp.

(** The server the loop makes for an entry. *)
Definition instance_of (c : Context) (w : World) (e : gostring * Server) : tftpServer :=
  {| tftp_timeout := tftp.SetTimeout (Timeout e.2);
     name := e.1;
     root := (filepath.Abs (getwd w) (Root e.2)).1;
     addr := parsed e;
     log := zap.Named (ctx_logger c) e.1;
     accessLog := Some (zap.Named (zap.Named (ctx_logger c) e.1) "access"%string) |}.

End provision.

(** The task [Start] launches for a server. *)
Definition task_of (s : tftpServer) : Task := mkTask (name s) (addr s).

(** The record of [Start] and [Stop] for a server: the message with the
    fields name, address and root. *)
Definition server_entry (s : tftpServer) (msg : gostring) : Entry :=
  mkEntry (logger_name (log s)) InfoLevel (Text msg)
    [zap.String "name"%string (name s);
     (("address"%string : gostring), AddressString (addr s));
     zap.String "root"%string (root s)].

(** The loop of [Start] for the servers still to start.  The function
    given to [errGroup.Go] writes the "server running" record and serves
    until [Serve] returns; the record is written here when the task is
    launched.  Every task serves the server of its own iteration. *)
Fixpoint Start_range (ss : list tftpServer) (g : errgroup.Group)
  : M (errgroup.Group * option error) :=
  match ss with
  | [] => ret (g, None)
  | s :: rest =>
      let! ln := caddy.Listen (addr s) 0 in
      match ln with
      | ListenError e => ret (g, Some (FailedToListen (addr s) e))
      | ListenOther => ret (g, Some (FailedToListenNil (addr s)))
      | ListenPacketConn =>
          let t := task_of s in
          let! _ := emit (EvGo t) in
          let! _ := emit (EvLog (server_entry s "server running"%string)) in
          Start_range rest (errgroup.Go g t)
      end
  end.

(** [Start] starts the TFTP app. *)
Definition Start (app : TFTP) : M (TFTP * option error) :=
  let! (g, err) := Start_range (servers app) (errgroup.mkGroup [] None) in
  ret (mkTFTP (Servers app) (servers app) (ctx app) (Some g), err).

(** The loop of [Stop]. *)
Fixpoint Stop_range (ss : list tftpServer) : M unit :=
  match ss with
  | [] => ret tt
  | s :: rest =>
      let! _ := emit (EvShutdown (name s)) in
      let! _ := emit (EvLog (server_entry s "server stopped"%string)) in
      Stop_range rest
  end.

(** [Stop] stops the TFTP app.  [sched] lists the serving tasks that
    return while [Stop] waits, in the order in which they return, each with
    what [Serve] returned. *)
Definition Stop (app : TFTP) (sched : list (Task * option error))
  : M (TFTP * Outcome (option error)) :=
  let! _ := Stop_range (servers app) in
  match errGroup app with
  | None => ret (app, Panics)   (* Wait on a nil *errgroup.Group *)
  | Some g =>
      let! _ := emit EvWait in
      let '(g', r) := errgroup.Wait g sched in
      ret (mkTFTP (Servers app) (servers app) (ctx app) (Some g'), r)
  end.

(** The events of one server in [Start] and in [Stop]. *)
Definition start_events (s : tftpServer) : list Event :=
  [EvListen (addr s) 0; EvGo (task_of s);
   EvLog (server_entry s "server running"%string)].

Definition stop_events (s : tftpServer) : list Event :=
  [EvShutdown (name s); EvLog (server_entry s "server stopped"%string)].

(** The listeners of the servers [ss] can be bound one after the other. *)
Fixpoint listens_ok (net : list NetworkAddress → NetworkAddress → N → ListenResult)
  (bound : list NetworkAddress) (ss : list tftpServer) : Prop :=
  match ss with
  | [] => True
  | s :: rest =>
      net bound (addr s) 0%N = ListenPacketConn ∧ listens_ok net (bound ++ [addr s]) rest
  end.

(** The error of [Start] for a listener that is not a packet connection. *)
Definition listen_failure (s : tftpServer) (r : ListenResult) : error :=
  match r with
  | ListenError e => FailedToListen (addr s) e
  | _ => FailedToListenNil (addr s)
  end.

(** The calls of [Shutdown]. *)
Definition is_shutdown (ev : Event) : bool :=
  match ev with
  | EvShutdown _ => true
  | _ => false
  end.

(** ** An earlier revision of [Provision]

    The revision of the module on go.universe.tf/netboot made one server
    for every port of the range of the listener address. *)

Module Legacy.

Record tftpServer := mktftpServer {
  name : gostring;
  addr : NetworkAddress;
  log : Logger;
}.

Section provision.

Variable ParseNetworkAddressWithDefaults :
  gostring → gostring → N → NetworkAddress * option error.

(** [tftp.FilesystemHandler(root)]: the error, if any. *)
Variable FilesystemHandler : gostring → option error.

(** [for portOffset := uint(0); portOffset < addr.PortRangeSize(); portOffset++]:
    [todo] iterations are left. *)
Fixpoint Provision_ports (c : Context) (name : gostring) (srv : Server)
  (addr : NetworkAddress) (todo : nat) (acc : list tftpServer)
  : list tftpServer * option error :=
  match todo with
  | O => (acc, None)
  | S todo' =>
      match FilesystemHandler (Root srv) with
      | Some e => (acc, Some e)
      | None =>
          Provision_ports c name srv addr todo'
            (acc ++ [mktftpServer name addr (zap.Named (ctx_logger c) name)])
      end
  end.

Fixpoint Provision_range (c : Context) (entries : list (gostring * Server))
  (acc : list tftpServer) : list tftpServer * option error :=
  match entries with
  | [] => (acc, None)
  | (name, srv) :: rest =>
      let '(addr, err) := ParseNetworkAddressWithDefaults (Listen srv) udp 69 in
      match err with
      | Some e => (acc, Some e)
      | None =>
          if negb (bool_decide (Network addr = udp)) then (acc, Some only_udp)
          else
            match Provision_ports c name srv addr (N.to_nat (PortRangeSize addr)) acc with
            | (acc', Some e) => (acc', Some e)
            | (acc', None) => Provision_range c rest acc'
            end
      end
  end.

End provision.

End Legacy.

(** ** What the handlers and [Provision] leave in the trace *)

(** The record a handler writes with [s.log.Error(err.Error(),
    zap.String("filename", filename))]. *)
Definition error_entry (s : tftpServer) (filename : gostring) (e : error) : Entry :=
  mkEntry (logger_name (log s)) ErrorLevel (ErrorText e)
    [zap.String "filename"%string filename].

(** The paths handed to [os.OpenFile], in order. *)
Definition opened (evs : list Event) : list gostring :=
  omap (λ ev, match ev with EvOpen p _ => Some p | _ => None end) evs.

(** A record at the level Error. *)
Definition is_error (ev : Event) : bool :=
  match ev with
  | EvLog e => match entry_level e with ErrorLevel => true | _ => false end
  | _ => false
  end.

(** The flags [writeHandler] opens with: [os.O_WRONLY|os.O_CREATE|os.O_EXCL]. *)
Definition write_flags : Z := Z.lor os.O_WRONLY (Z.lor os.O_CREATE os.O_EXCL).

Section provision_defs.

(** [caddy.ParseNetworkAddressWithDefaults]. *)
Variable parse : gostring → gostring → N → NetworkAddress * option error.

(** The error of the first check an entry fails. *)
Definition entry_error (w : World) (e : gostring * Server) : error :=
  match (filepath.Abs (getwd w) (Root e.2)).2 with
  | Some err => err
  | None =>
      match (parse (Listen e.2) udp 69).2 with
      | Some err => err
      | None => only_udp
      end
  end.

(** Two entries that differ at most in the field [Logs]. *)
Definition same_but_Logs (e1 e2 : gostring * Server) : Prop :=
  e1.1 = e2.1 ∧ Listen e1.2 = Listen e2.2 ∧ Root e1.2 = Root e2.2 ∧
  Timeout e1.2 = Timeout e2.2.

End provision_defs.

(** A root that is absolute and canonical. *)
Definition canonical_root (s : tftpServer) : Prop :=
  filepath.IsAbs (root s) = true ∧ filepath.Clean (root s) = root s.

(** ** The entries of the earliest revision *)

Section legacy_entries.

Variable ParseNetworkAddressWithDefaults :
  gostring → gostring → N → NetworkAddress * option error.
Variable FilesystemHandler : gostring → option error.

(** An entry passes the checks of the loop of the earliest revision: its
    listener address parses, the network is udp, and the handler for its
    root can be made. *)
Definition legacy_ok (e : gostring * Server) : Prop :=
  (ParseNetworkAddressWithDefaults (Listen e.2) udp 69).2 = None ∧
  Network (parsed ParseNetworkAddressWithDefaults e) = udp ∧
  FilesystemHandler (Root e.2) = None.

(** The servers the earliest revision makes for an entry: one for every
    port of the range, each with the whole address. *)
Definition legacy_instances (c : Context) (e : gostring * Server) : list Legacy.tftpServer :=
  replicate (N.to_nat (PortRangeSize (parsed ParseNetworkAddressWithDefaults e)))
    (Legacy.mktftpServer e.1 (parsed ParseNetworkAddressWithDefaults e)
       (zap.Named (ctx_logger c) e.1)).

End legacy_entries.

(** ** Package path *)

Module path.

(** The loop of [path.Join] over the elements: [buf] so far. *)
Fixpoint join_buf (elem : list gostring) (buf : gostring) : gostring :=
  match elem with
  | [] => buf
  | e :: rest =>
      if bool_decide (0 < length buf) || negb (bool_decide (e = [])) then
        join_buf rest ((if bool_decide (0 < length buf)
                        then buf ++ [filepath.Separator] else buf) ++ e)
      else join_buf rest buf
  end.

(** [path.Join]; [path.Clean] is the algorithm of [filepath.Clean] with
    the separator [/]. *)
Definition Join (elem : list gostring) : gostring :=
  if bool_decide (sum_list (map length elem) = 0) then []
  else filepath.Clean (join_buf elem []).

End path.

(** ** The revision before [safePath]

    The revision of the file that joins root and file name with
    [path.Join] and opens the result. *)

Module Previous.

Record tftpServer := mktftpServer {
  name : gostring;
  root : gostring;
  addr : NetworkAddress;
  log : Logger;
}.

(** [fmt.Sprintf("%d bytes sent", n)] and [fmt.Sprintf("%d bytes received", n)]. *)
Definition bytes_sent (n : Z) : gostring := (pretty n : string) ++ " bytes sent"%string.

Definition bytes_received (n : Z) : gostring := (pretty n : string) ++ " bytes received"%string.

(** [readHandler] is called when a client starts a download. *)
Definition readHandler (s : tftpServer) (filename : gostring) (rf : ReaderFrom)
  : M (option error) :=
  let p := path.Join [root s; filename] in
  let! (file, err) := os.Open p in
  match err with
  | Some e =>
      let! _ := log_entry (log s) ErrorLevel (ErrorText e) [] in
      ret (Some e)
  | None =>
      let! (n, err) := ReadFrom rf file in
      match err with
      | Some e =>
          let! _ := log_entry (log s) ErrorLevel (ErrorText e) [] in
          ret (Some e)
      | None =>
          let! _ := log_entry (log s) InfoLevel (Text (bytes_sent n)) [] in
          ret None
      end
  end.

(** [writeHandler] is called when a client starts an upload. *)
Definition writeHandler (s : tftpServer) (filename : gostring) (wt : WriterTo)
  : M (option error) :=
  let p := path.Join [root s; filename] in
  let! (file, err) :=
    os.OpenFile p (Z.lor os.O_WRONLY (Z.lor os.O_CREATE os.O_EXCL)) 420 in
  match err with
  | Some e =>
      let! _ := log_entry (log s) ErrorLevel (ErrorText e) [] in
      ret (Some e)
  | None =>
      let! (n, err) := WriteTo wt file in
      match err with
      | Some e =>
          let! _ := log_entry (log s) ErrorLevel (ErrorText e) [] in
          ret (Some e)
      | None =>
          let! _ := log_entry (log s) InfoLevel (Text (bytes_received n)) [] in
          ret None
      end
  end.

End Previous.

(** The file name that climbs from the names [A] to the root directory
    and then names the path with the names [B]. *)
Definition climb (A B : list gostring) : gostring :=
  strings.Join (replicate (length A) segs.dotdot) [filepath.Separator] ++ segs.path_of B.

(** ** Values used in the examples *)

Module examples.

Definition srv_tftp : gostring := "/srv/tftp"%string.

Definition logger : Logger := mkLogger "tftp"%string.

(** The server provisioned for the entry [""] with root [/srv/tftp]. *)
Definition server : tftpServer :=
  {| tftp_timeout := tftp.defaultTimeout;
     name := [];
     root := srv_tftp;
     addr := mkNetworkAddress udp [] 69 69;
     log := logger;
     accessLog := Some (zap.Named logger "access"%string) |}.

Definition boot_bin : gostring := "/srv/tftp/boot.bin"%string.

Definition world : World :=
  {| getwd := (("/home/caddy"%string : gostring), None);
     files := {[ boot_bin := ("0123456789"%string : gostring) ]};
     open_fault := λ _, None;
     now := 0;
     net_listen := λ bound a _,
       if bool_decide (a ∈ bound) then ListenError (SyscallError "bind"%string EADDRINUSE)
       else ListenPacketConn;
     bound := [];
     trace := [] |}.

Definition client : UDPAddr := mkUDPAddr "192.0.2.7"%string 40000.

Definition download : ReaderFrom :=
  mkReaderFrom (Some client) (λ content, (Z.of_nat (length content), None, 1000%Z)).

Definition upload : WriterTo :=
  mkWriterTo (Some client) ("new content"%string : gostring) None 1000.

Definition context : Context := mkContext logger.

(** One server, access logging switched off in the configuration. *)
Definition config_no_logs : list (gostring * Server) :=
  [([], mkServer ":69"%string srv_tftp 0 false)].

(** Two servers with the same listener address. *)
Definition config_same_address : list (gostring * Server) :=
  [(("a"%string : gostring), mkServer ":69"%string "/srv/a"%string 0 false);
   (("b"%string : gostring), mkServer ":69"%string "/srv/b"%string 0 false)].

(** One server on a range of three ports. *)
Definition config_port_range : list (gostring * Server) :=
  [(("pxe"%string : gostring), mkServer "udp/:6900-6902"%string srv_tftp 0 true)].

(** The table [cleantests] of the tests of Go's [path/filepath]: the
    inputs of [Clean] and the results expected. *)
Definition cleantests : list (string * string) :=
  [(""%string, "."%string);
   ("abc"%string, "abc"%string);
   ("abc/def"%string, "abc/def"%string);
   ("a/b/c"%string, "a/b/c"%string);
   ("."%string, "."%string);
   (".."%string, ".."%string);
   ("../.."%string, "../.."%string);
   ("../../abc"%string, "../../abc"%string);
   ("/abc"%string, "/abc"%string);
   ("/"%string, "/"%string);
   ("abc/"%string, "abc"%string);
   ("abc/def/"%string, "abc/def"%string);
   ("a/b/c/"%string, "a/b/c"%string);
   ("./"%string, "."%string);
   ("../"%string, ".."%string);
   ("../../"%string, "../.."%string);
   ("/abc/"%string, "/abc"%string);
   ("abc//def//ghi"%string, "abc/def/ghi"%string);
   ("//abc"%string, "/abc"%string);
   ("///abc"%string, "/abc"%string);
   ("//abc//"%string, "/abc"%string);
   ("abc//"%string, "abc"%string);
   ("abc/./def"%string, "abc/def"%string);
   ("/./abc/def"%string, "/abc/def"%string);
   ("abc/."%string, "abc"%string);
   ("abc/def/ghi/../jkl"%string, "abc/def/jkl"%string);
   ("abc/def/../ghi/../jkl"%string, "abc/jkl"%string);
   ("abc/def/.."%string, "abc"%string);
   ("abc/def/../.."%string, "."%string);
   ("/abc/def/../.."%string, "/"%string);
   ("abc/def/../../.."%string, ".."%string);
   ("/abc/def/../../.."%string, "/"%string);
   ("abc/def/../../../ghi/jkl/../../../mno"%string, "../../mno"%string);
   ("/../abc"%string, "/abc"%string);
   ("abc/./../def"%string, "def"%string);
   ("abc//./../def"%string, "def"%string);
   ("abc/../../././../def"%string, "../../def"%string)].

Definition app_of (config : list (gostring * Server)) : TFTP :=
  mkTFTP config [] None None.

(** Two provisioned servers on the ports 69 and 6969. *)
Definition server_a : tftpServer :=
  {| tftp_timeout := tftp.defaultTimeout;
     name := "a"%string;
     root := "/srv/a"%string;
     addr := mkNetworkAddress udp [] 69 69;
     log := zap.Named logger "a"%string;
     accessLog := Some (zap.Named (zap.Named logger "a"%string) "access"%string) |}.

Definition server_b : tftpServer :=
  {| tftp_timeout := tftp.defaultTimeout;
     name := "b"%string;
     root := "/srv/b"%string;
     addr := mkNetworkAddress udp [] 6969 6969;
     log := zap.Named logger "b"%string;
     accessLog := Some (zap.Named (zap.Named logger "b"%string) "access"%string) |}.

(** A third server on the port of the first. *)
Definition server_c : tftpServer :=
  {| tftp_timeout := tftp.defaultTimeout;
     name := "c"%string;
     root := "/srv/c"%string;
     addr := mkNetworkAddress udp [] 69 69;
     log := zap.Named logger "c"%string;
     accessLog := Some (zap.Named (zap.Named logger "c"%string) "access"%string) |}.

Definition closed : error := TransferError "use of closed network connection"%string.

(** A server that serves the whole file system. *)
Definition server_slash : tftpServer :=
  {| tftp_timeout := tftp.defaultTimeout;
     name := [];
     root := "/"%string;
     addr := mkNetworkAddress udp [] 69 69;
     log := logger;
     accessLog := Some (zap.Named logger "access"%string) |}.

(** An upload that breaks off after four bytes. *)
Definition upload_cut : WriterTo :=
  mkWriterTo (Some client) ("part"%string : gostring) (Some closed) 1000.

(** Three servers, the second on a network that is not udp. *)
Definition config_tcp : list (gostring * Server) :=
  [(("a"%string : gostring), mkServer ":69"%string "/srv/a"%string 0 false);
   (("b"%string : gostring), mkServer "tcp/:69"%string "/srv/b"%string 0 false);
   (("c"%string : gostring), mkServer ":6969"%string "/srv/c"%string 0 false)].

(** [config_no_logs] with access logging switched on. *)
Definition config_logs : list (gostring * Server) :=
  [([], mkServer ":69"%string srv_tftp 0 true)].

Definition passwd : gostring := "/etc/passwd"%string.

(** A world with a file outside every root of the examples. *)
Definition world_passwd : World :=
  set_files (<[passwd := ("root:x:0:0"%string : gostring)]> (files world)) world.

(** The server of the previous revision with root [/srv/tftp]. *)
Definition previous_server : Previous.tftpServer :=
  Previous.mktftpServer [] srv_tftp (mkNetworkAddress udp [] 69 69) logger.

End examples.

(** * Properties *)

Section clean_examples.
Import filepath.

Example Clean_ex1 : Clean "/srv/tftp/../tftp-other/x"%string = "/srv/tftp-other/x"%string.
Proof. reflexivity. Qed.
Example Clean_ex2 : Clean "a//b/./c/.."%string = "a/b"%string.
Proof. reflexivity. Qed.
Example Clean_ex3 : Clean "../../a/../../b"%string = "../../../b"%string.
Proof. reflexivity. Qed.
Example Clean_ex4 : Clean "/../a/b/../.."%string = "/"%string.
Proof. reflexivity. Qed.
Example Clean_ex5 : Clean "a/.."%string = "."%string.
Proof. reflexivity. Qed.
Example Clean_ex6 : Clean "/a/..b/...//"%string = "/a/..b/..."%string.
Proof. reflexivity. Qed.
Example Clean_cleantests :
  Forall (λ t : string * string, Clean (t.1 : gostring) = (t.2 : gostring))
    examples.cleantests.
Proof. apply (bool_decide_eq_true_1 _). vm_compute. reflexivity. Qed.

Example Join_ex1 : Join [ "/srv/tftp"%string : gostring; "/etc/passwd"%string : gostring]
                   = "/srv/tftp/etc/passwd"%string.
Proof. reflexivity. Qed.
Example Join_ex2 : Join [ [] ; "a/../.."%string : gostring] = ".."%string.
Proof. reflexivity. Qed.
End clean_examples.

(** ** The loop of [Clean], segment by segment *)

Section clean_loop_facts.
Import filepath segs.

Lemma IsPathSeparator_true c : IsPathSeparator c = true ↔ c = Separator.
Proof. unfold IsPathSeparator. apply bool_decide_eq_true. Qed.

Lemma IsPathSeparator_false c : IsPathSeparator c = false ↔ c ≠ Separator.
Proof. unfold IsPathSeparator. apply bool_decide_eq_false. Qed.

Lemma copy_with_segment k seg rest o :
  (∀ o', k [] o' = o') →
  Forall nonsep seg → at_boundary rest = true →
  copy_with k (seg ++ rest) o = k rest (reverse seg ++ o).
Proof.
  intros Hk Hs Hb. revert o. induction Hs as [|x seg Hx Hs IH]; intros o.
  - simpl. destruct rest as [|c rest]; simpl; [by rewrite Hk|].
    simpl in Hb. by rewrite Hb.
  - simpl. apply IsPathSeparator_false in Hx. rewrite Hx.
    rewrite IH. by rewrite reverse_cons, <- app_assoc.
Qed.

Lemma clean_loop_element rooted c rest out dd :
  c ≠ Separator →
  (is_dot c && at_boundary rest = false) →
  match rest with
  | c1 :: rest' => is_dot c && is_dot c1 && at_boundary rest' = false
  | [] => True
  end →
  clean_loop rooted (c :: rest) out dd =
  copy_with (λ l o, clean_loop rooted l o dd) rest (c :: add_slash rooted out).
Proof.
  intros Hc H1 H2. apply IsPathSeparator_false in Hc.
  simpl. rewrite Hc, H1. destruct rest as [|c1 rest']; [done|]. by rewrite H2.
Qed.

(** One iteration group of the loop consumes one whole segment. *)
Lemma clean_loop_segment rooted seg rest out dd :
  seg ≠ [] → Forall nonsep seg → at_boundary rest = true →
  clean_loop rooted (seg ++ rest) out dd =
  clean_loop rooted rest (elem_step rooted (out, dd) seg).1
                         (elem_step rooted (out, dd) seg).2.
Proof.
  intros Hne Hs Hb. destruct seg as [|c seg]; [done|]. clear Hne.
  apply Forall_cons in Hs as [Hc Hs].
  destruct (decide (c = "."%char)) as [->|Hnd].
  - (* the segment starts with a dot *)
    destruct seg as [|c1 seg].
    + (* "." *)
      simpl. replace (at_boundary rest) with true. simpl.
      destruct rest; reflexivity.
    + apply Forall_cons in Hs as [Hc1 Hs].
      assert (at_boundary ((c1 :: seg) ++ rest) = false) as Hb1.
      { simpl. by apply IsPathSeparator_false. }
      destruct (decide (c1 = "."%char)) as [->|Hnd1].
      * destruct seg as [|c2 seg].
        -- (* ".." *)
           change (("."%char :: "."%char :: []) ++ rest)
             with ("."%char :: "."%char :: rest).
           simpl. rewrite Hb. simpl.
           replace (elem_step rooted (out, dd) ["."%char; "."%char])
             with (if bool_decide (dd < length out) then (backtrack out dd, dd)
                   else if negb rooted then
                     ("."%char :: "."%char ::
                        (if bool_decide (0 < length out) then Separator :: out else out),
                      S (S (length (if bool_decide (0 < length out)
                                    then Separator :: out else out))))
                   else (out, dd)) by reflexivity.
           destruct (bool_decide (dd < length out)); [done|].
           destruct rooted; done.
        -- (* "..x" *)
           apply Forall_cons in Hs as [Hc2 Hs].
           cbn [app]; rewrite clean_loop_element; [| done | done |].
           2:{ simpl. apply IsPathSeparator_false in Hc2. rewrite Hc2.
               by rewrite ?andb_false_r. }
           etrans; [apply (copy_with_segment _ ("."%char :: c2 :: seg) rest);
                    [done | repeat constructor; done | done] |].
           unfold elem_step.
           rewrite !bool_decide_eq_false_2 by (unfold dot, dotdot; simpl; congruence).
           simpl. by rewrite !reverse_cons, <- !app_assoc.
      * (* ".x" *)
        cbn [app]; rewrite clean_loop_element; [| done | |].
        2:{ simpl. apply IsPathSeparator_false in Hc1. by rewrite Hc1, ?andb_false_r. }
        2:{ replace (is_dot c1) with false
              by (symmetry; by apply bool_decide_eq_false_2).
            by rewrite andb_false_r. }
        etrans; [apply (copy_with_segment _ (c1 :: seg) rest);
                 [done | constructor; done | done] |].
        unfold elem_step.
        rewrite !bool_decide_eq_false_2
          by (unfold dot, dotdot; simpl; congruence).
        simpl. by rewrite !reverse_cons, <- !app_assoc.
  - (* an ordinary first byte *)
    cbn [app]; rewrite clean_loop_element; [| done | |].
    2:{ unfold is_dot. by rewrite bool_decide_eq_false_2. }
    2:{ destruct (seg ++ rest); [done|].
        replace (is_dot c) with false
          by (symmetry; by apply bool_decide_eq_false_2).
        done. }
    etrans; [apply (copy_with_segment _ seg rest); done |].
    unfold elem_step.
    rewrite !bool_decide_eq_false_2
      by (unfold dot, dotdot; simpl; congruence).
    simpl. by rewrite !reverse_cons, <- !app_assoc.
Qed.

Lemma segments_nonnil p : segments p ≠ [].
Proof.
  destruct p as [|c p]; simpl; [done|].
  destruct (IsPathSeparator c); [done|]. by destruct (segments p).
Qed.

Lemma segments_app_nonsep seg rest :
  Forall nonsep seg →
  segments (seg ++ rest) = (seg ++ hd [] (segments rest)) :: tail (segments rest).
Proof.
  induction 1 as [|c seg Hc Hs IH]; simpl.
  - pose proof (segments_nonnil rest). by destruct (segments rest).
  - apply IsPathSeparator_false in Hc. by rewrite Hc, IH.
Qed.

Lemma segments_app_sep a b :
  segments (a ++ Separator :: b) = segments a ++ segments b.
Proof.
  induction a as [|c a IH]; simpl; [done|].
  destruct (IsPathSeparator c); rewrite IH; [done|].
  pose proof (segments_nonnil a). by destruct (segments a).
Qed.

Lemma segments_nonsep p : Forall (Forall nonsep) (segments p).
Proof.
  induction p as [|c p IH]; simpl; [by repeat constructor|].
  destruct (IsPathSeparator c) eqn:Hc; [by constructor|].
  apply IsPathSeparator_false in Hc.
  destruct (segments p) as [|s ss]; [by repeat constructor|].
  apply Forall_cons in IH as [Hs Hss]. by repeat constructor.
Qed.

Lemma span_nonsep p :
  ∃ seg rest, p = seg ++ rest ∧ Forall nonsep seg ∧ at_boundary rest = true.
Proof.
  induction p as [|c p (seg & rest & -> & Hs & Hb)].
  - by exists [], [].
  - destruct (IsPathSeparator c) eqn:Hc.
    + by exists [], (c :: seg ++ rest).
    + apply IsPathSeparator_false in Hc.
      exists (c :: seg), rest. by repeat constructor.
Qed.

(** The loop is a left fold of [elem_step] over the segments of its
    input. *)
Theorem clean_loop_segments rooted p out dd :
  clean_loop rooted p out dd = (foldl (elem_step rooted) (out, dd) (segments p)).1.
Proof.
  remember (length p) as n eqn:Hn. revert p out dd Hn.
  induction n as [n IH] using lt_wf_ind. intros p out dd ->.
  destruct p as [|c p]; [done|].
  destruct (IsPathSeparator c) eqn:Hc.
  - simpl. rewrite Hc. apply (IH (length p)); simpl; [lia|done].
  - destruct (span_nonsep (c :: p)) as (seg & rest & Heq & Hs & Hb).
    assert (seg ≠ []) as Hne.
    { intros ->. simpl in Heq. subst rest. simpl in Hb. congruence. }
    rewrite Heq, clean_loop_segment, segments_app_nonsep by done.
    assert (length rest < length (c :: p)) as Hlen.
    { rewrite Heq, length_app. destruct seg; [done|simpl; lia]. }
    destruct rest as [|x rest].
    + simpl. by rewrite app_nil_r.
    + simpl in Hb. simpl segments. rewrite Hb. simpl hd. simpl tail.
      rewrite app_nil_r. cbn [foldl].
      destruct (elem_step rooted (out, dd) seg) as [o d] eqn:He. cbn [fst snd].
      cbn [clean_loop]. rewrite Hb.
      apply (IH (length rest)); [cbn [length] in *; lia|done].
Qed.

End clean_loop_facts.

(** ** Rooted paths: [Clean] as a stack of names *)

Section rooted_paths.
Import filepath segs.

Lemma is_name_nonsep s : is_name s → Forall nonsep s.
Proof. by intros (_ & _ & _ & ?). Qed.

Lemma is_name_nonnil s : is_name s → s ≠ [].
Proof. by intros (? & _). Qed.

Lemma buf_length_pos st : 1 ≤ length (buf st).
Proof.
  destruct st as [|s st]; simpl; [done|].
  rewrite length_app. destruct st; simpl; lia.
Qed.

Lemma buf_cons_length s st : is_name s → 1 < length (buf (s :: st)).
Proof.
  intros Hs. apply is_name_nonnil in Hs. simpl. rewrite length_app, length_reverse.
  destruct s; [done|]. destruct st; simpl; lia.
Qed.

Lemma backtrack_segment l T :
  l ≠ [] → Forall nonsep l →
  backtrack (l ++ Separator :: T) 1 = if bool_decide (T = []) then [Separator] else T.
Proof.
  intros Hne Hl. induction Hl as [|x l Hx Hl IH]; [done|]. clear Hne.
  apply IsPathSeparator_false in Hx.
  cbn [app backtrack]. rewrite Hx, length_app. cbn [length negb].
  destruct l as [|y l].
  - cbn [app length]. destruct T as [|t T]; [done|].
    rewrite bool_decide_eq_true_2 by (cbn [length]; lia).
    cbn [andb backtrack]. unfold IsPathSeparator at 1.
    rewrite (bool_decide_eq_true_2 (Separator = Separator)) by done.
    cbn [negb]. by rewrite andb_false_r.
  - rewrite bool_decide_eq_true_2 by (cbn [length]; lia).
    cbn [andb]. by apply IH.
Qed.

Lemma backtrack_buf s st :
  is_name s → backtrack (buf (s :: st)) 1 = buf st.
Proof.
  intros Hs. cbn [buf].
  assert (reverse s ≠ []) as Hne.
  { intros H. apply (f_equal length) in H. rewrite length_reverse in H.
    apply is_name_nonnil in Hs. by destruct s. }
  assert (Forall nonsep (reverse s)) as Hns.
  { apply Forall_reverse. by apply is_name_nonsep. }
  destruct st as [|s' st].
  - by rewrite (backtrack_segment _ []).
  - rewrite backtrack_segment by done.
    rewrite bool_decide_eq_false_2; [done|].
    intros H. pose proof (buf_length_pos (s' :: st)) as Hl. rewrite H in Hl.
    simpl in Hl. lia.
Qed.

Lemma add_slash_buf st :
  Forall is_name st →
  add_slash true (buf st) =
  match st with [] => [Separator] | _ => Separator :: buf st end.
Proof.
  intros Hst. unfold add_slash. destruct st as [|s st]; [done|].
  apply Forall_cons in Hst as [Hs _].
  pose proof (buf_cons_length s st Hs).
  rewrite bool_decide_eq_false_2 by lia. done.
Qed.

Lemma elem_step_buf st seg :
  Forall is_name st →
  elem_step true (buf st, 1) seg = (buf (resolve_step st seg), 1).
Proof.
  intros Hst. unfold elem_step, resolve_step.
  destruct (bool_decide (seg = []) || bool_decide (seg = dot)); [done|].
  destruct (bool_decide (seg = dotdot)).
  - destruct st as [|s st].
    + done.
    + apply Forall_cons in Hst as [Hs _].
      rewrite bool_decide_eq_true_2 by by apply buf_cons_length.
      by rewrite backtrack_buf.
  - rewrite add_slash_buf by done. cbn [negb]. done.
Qed.

Lemma resolve_step_names st seg :
  Forall is_name st → Forall nonsep seg → Forall is_name (resolve_step st seg).
Proof.
  intros Hst Hseg. unfold resolve_step.
  destruct (bool_decide (seg = [])) eqn:H1; [done|].
  destruct (bool_decide (seg = dot)) eqn:H2; [done|].
  destruct (bool_decide (seg = dotdot)) eqn:H3; cbn [orb].
  - destruct st; [done|]. by apply Forall_cons in Hst as [_ ?].
  - apply bool_decide_eq_false in H1, H2, H3. by constructor.
Qed.

Lemma resolve_names segs st :
  Forall is_name st → Forall (Forall nonsep) segs → Forall is_name (resolve segs st).
Proof.
  intros Hst Hsegs. revert st Hst. unfold resolve.
  induction Hsegs as [|seg segs Hseg Hsegs IH]; intros st Hst; [done|].
  cbn [foldl]. apply IH. by apply resolve_step_names.
Qed.

Lemma foldl_elem_step_buf segs st :
  Forall is_name st → Forall (Forall nonsep) segs →
  foldl (elem_step true) (buf st, 1) segs = (buf (resolve segs st), 1).
Proof.
  intros Hst Hsegs. revert st Hst. unfold resolve.
  induction Hsegs as [|seg segs Hseg Hsegs IH]; intros st Hst; [done|].
  cbn [foldl]. rewrite elem_step_buf by done.
  apply IH. by apply resolve_step_names.
Qed.

Lemma Join_snoc l s sep :
  l ≠ [] → strings.Join (l ++ [s]) sep = strings.Join l sep ++ sep ++ s.
Proof.
  induction l as [|a l IH]; [done|]. intros _.
  destruct l as [|b l]; [done|].
  change (strings.Join ((a :: b :: l) ++ [s]) sep)
    with (a ++ sep ++ strings.Join ((b :: l) ++ [s]) sep).
  rewrite IH by done.
  change (strings.Join (a :: b :: l) sep) with (a ++ sep ++ strings.Join (b :: l) sep).
  by rewrite <- !app_assoc.
Qed.

Lemma reverse_buf st : reverse (buf st) = path_of (reverse st).
Proof.
  induction st as [|s st IH]; [done|].
  cbn [buf]. rewrite reverse_cons. destruct st as [|s' st].
  - rewrite reverse_app, reverse_involutive. done.
  - rewrite reverse_app, reverse_involutive, reverse_cons, IH.
    unfold path_of. rewrite Join_snoc.
    + cbn [app]. by rewrite <- !app_assoc.
    + rewrite reverse_cons. intros H. by apply app_nil in H as [_ ?].
Qed.

(** [Clean] on a rooted path: resolve the segments against an empty
    stack and write the names out. *)
Theorem Clean_rooted r :
  Clean (Separator :: r) = path_of (reverse (resolve (segments r) [])).
Proof.
  unfold Clean. change (IsPathSeparator Separator) with true. cbn iota.
  rewrite clean_loop_segments. change [Separator] with (buf []).
  rewrite (foldl_elem_step_buf (segments r) []) by (done || apply segments_nonsep).
  cbn [fst]. rewrite bool_decide_eq_false_2.
  - apply reverse_buf.
  - pose proof (buf_length_pos (resolve (segments r) [])). lia.
Qed.

End rooted_paths.

(** ** Canonical absolute paths *)

Section canonical_paths.
Import filepath segs.

Lemma segments_single s : Forall nonsep s → segments s = [s].
Proof.
  intros Hs. rewrite <- (app_nil_r s) at 1.
  rewrite segments_app_nonsep by done. simpl. by rewrite app_nil_r.
Qed.

Lemma segments_Join_names names :
  Forall is_name names → names ≠ [] →
  segments (strings.Join names [Separator]) = names.
Proof.
  induction 1 as [|s names Hs Hnames IH]; [done|]. intros _.
  destruct names as [|s' names].
  - apply segments_single. by apply is_name_nonsep.
  - change (strings.Join (s :: s' :: names) [Separator])
      with (s ++ Separator :: strings.Join (s' :: names) [Separator]).
    rewrite segments_app_sep, IH by done.
    rewrite segments_single by by apply is_name_nonsep. done.
Qed.

Lemma resolve_step_name st s : is_name s → resolve_step st s = s :: st.
Proof.
  intros (H1 & H2 & H3 & _). unfold resolve_step.
  by rewrite !bool_decide_eq_false_2.
Qed.

Lemma resolve_app a b st : resolve (a ++ b) st = resolve b (resolve a st).
Proof. unfold resolve. apply foldl_app. Qed.

Lemma resolve_push names st :
  Forall is_name names → resolve names st = reverse names ++ st.
Proof.
  intros Hn. revert st. induction Hn as [|s names Hs Hn IH]; intros st; [done|].
  change (resolve (s :: names) st) with (resolve names (resolve_step st s)).
  rewrite resolve_step_name, IH, reverse_cons, <- app_assoc by done. done.
Qed.

(** Without a [..] segment nothing is popped: the names of the input are
    pushed in order. *)
Lemma resolve_no_dotdot segs st :
  Forall (Forall nonsep) segs → dotdot ∉ segs →
  resolve segs st = reverse (filter is_name segs) ++ st.
Proof.
  intros Hsegs. revert st.
  induction Hsegs as [|seg segs Hseg Hsegs IH]; intros st Hdd; [done|].
  apply not_elem_of_cons in Hdd as [Hne Hdd].
  change (resolve (seg :: segs) st) with (resolve segs (resolve_step st seg)).
  rewrite IH by done.
  destruct (decide (is_name seg)) as [Hn|Hn].
  - rewrite resolve_step_name, filter_cons_True, reverse_cons, <- app_assoc by done.
    done.
  - rewrite filter_cons_False by done. f_equal.
    unfold resolve_step.
    destruct (decide (seg = [])) as [->|H1]; [done|].
    destruct (decide (seg = dot)) as [->|H2]; [done|].
    destruct Hn. unfold is_name. auto.
Qed.

Lemma is_name_filter segs : Forall is_name (filter is_name segs).
Proof. apply Forall_forall. intros x Hx. by apply list_elem_of_filter in Hx as [? _]. Qed.

Lemma Clean_rooted_names r : Forall is_name (reverse (resolve (segments r) [])).
Proof. apply Forall_reverse, resolve_names; [done|apply segments_nonsep]. Qed.

Lemma resolve_segments_Join names :
  Forall is_name names →
  resolve (segments (strings.Join names [Separator])) [] = reverse names.
Proof.
  intros Hn. destruct (decide (names = [])) as [->|Hne]; [done|].
  rewrite segments_Join_names, resolve_push, app_nil_r by done. done.
Qed.

(** A path written out from names is a fixed point of [Clean]. *)
Lemma Clean_path_of names : Forall is_name names → Clean (path_of names) = path_of names.
Proof.
  intros Hn. unfold path_of at 1. rewrite Clean_rooted, resolve_segments_Join by done.
  by rewrite reverse_involutive.
Qed.

Lemma HasPrefix_prefix s p : strings.HasPrefix s p = true ↔ p `prefix_of` s.
Proof.
  unfold strings.HasPrefix. rewrite andb_true_iff, !bool_decide_eq_true. split.
  - intros [_ H]. exists (drop (length p) s). by rewrite <- H at 1; rewrite take_drop.
  - intros [k ->]. rewrite length_app, take_app_length. split; [lia|done].
Qed.

Lemma IsAbs_cons p : IsAbs p = true ↔ ∃ r, p = Separator :: r.
Proof.
  unfold IsAbs. rewrite HasPrefix_prefix. split; intros [r ->]; by exists r.
Qed.

Lemma IsAbs_path_of names : IsAbs (path_of names) = true.
Proof. apply IsAbs_cons. by eexists. Qed.

(** The canonical absolute paths are the paths written out from names. *)
Lemma canonical_names R :
  IsAbs R = true → Clean R = R → ∃ names, Forall is_name names ∧ R = path_of names.
Proof.
  intros [r ->]%IsAbs_cons Hc. rewrite Clean_rooted in Hc.
  eexists. split; [apply (Clean_rooted_names r)|done].
Qed.

(** [Clean] of an absolute path is absolute and canonical. *)
Lemma Clean_abs_canonical p :
  IsAbs p = true → IsAbs (Clean p) = true ∧ Clean (Clean p) = Clean p.
Proof.
  intros [r ->]%IsAbs_cons. rewrite Clean_rooted. split.
  - apply IsAbs_path_of.
  - apply Clean_path_of, Clean_rooted_names.
Qed.

Lemma Join_rooted R F :
  IsAbs R = true → Join [R; F] = Clean (R ++ Separator :: F).
Proof.
  intros [r ->]%IsAbs_cons. unfold Join.
  by rewrite bool_decide_eq_false_2.
Qed.

Lemma Join_abs R F : IsAbs R = true → IsAbs (Join [R; F]) = true.
Proof.
  intros HR. rewrite Join_rooted by done.
  apply Clean_abs_canonical. apply IsAbs_cons in HR as [r ->].
  apply IsAbs_cons. by eexists.
Qed.

(** What [filepath.Abs] returns without an error is absolute and
    canonical, [os.Getwd] returning an absolute path when it succeeds. *)
Lemma Abs_canonical wd p R :
  (wd.2 = None → IsAbs wd.1 = true) →
  Abs wd p = (R, None) → IsAbs R = true ∧ Clean R = R.
Proof.
  intros Hwd. unfold Abs. destruct (IsAbs p) eqn:Hp.
  - intros [= <-]. by apply Clean_abs_canonical.
  - destruct wd as [d [e|]]; [done|]. intros H. cbn [fst snd] in Hwd.
    specialize (Hwd eq_refl).
    assert (R = Join [d; p]) as -> by congruence. clear H.
    split; [by apply Join_abs|].
    rewrite Join_rooted by done. apply Clean_abs_canonical.
    apply IsAbs_cons in Hwd as [r ->]. apply IsAbs_cons. by eexists.
Qed.

(** [filepath.Abs] fails only for a relative path when the working
    directory cannot be read. *)
Lemma Abs_error wd p : (Abs wd p).2 = None ↔ IsAbs p = true ∨ wd.2 = None.
Proof.
  unfold Abs. destruct (IsAbs p); [by split; [left|]|].
  destruct wd as [d [e|]]; cbn [fst snd].
  - split; [done|]. by intros [?|?].
  - split; [by right|done].
Qed.

(** The names of an absolute root followed by the segments of a file
    name: what [Clean] makes of the two joined by a separator. *)
Lemma Clean_root_segments R F :
  IsAbs R = true →
  Clean (R ++ Separator :: F)
  = path_of (reverse (resolve (segments R ++ segments F) [])).
Proof.
  intros [r ->]%IsAbs_cons. cbn [app]. rewrite Clean_rooted, segments_app_sep.
  cbn [segments]. change (IsPathSeparator Separator) with true. cbn iota.
  done.
Qed.

(** Joining a canonical root and a file name: the segments of the file
    name are resolved against the names of the root. *)
Lemma Join_names names F :
  Forall is_name names →
  Join [path_of names; F] = path_of (reverse (resolve (segments F) (reverse names))).
Proof.
  intros Hn. rewrite Join_rooted by apply IsAbs_path_of.
  unfold path_of at 1. cbn [app]. rewrite Clean_rooted.
  by rewrite segments_app_sep, resolve_app, resolve_segments_Join.
Qed.

Lemma Join_app a b sep :
  a ≠ [] → b ≠ [] →
  strings.Join (a ++ b) sep = strings.Join a sep ++ sep ++ strings.Join b sep.
Proof.
  intros Ha Hb. induction a as [|x a IH]; [done|]. clear Ha.
  destruct a as [|y a].
  - destruct b; done.
  - change (strings.Join ((x :: y :: a) ++ b) sep)
      with (x ++ sep ++ strings.Join ((y :: a) ++ b) sep).
    rewrite IH by done.
    change (strings.Join (x :: y :: a) sep) with (x ++ sep ++ strings.Join (y :: a) sep).
    by rewrite <- !app_assoc.
Qed.

Lemma path_of_app_prefix names more : path_of names `prefix_of` path_of (names ++ more).
Proof.
  unfold path_of. destruct (decide (names = [])) as [->|Ha].
  { by eexists. }
  destruct (decide (more = [])) as [->|Hb].
  { by rewrite app_nil_r. }
  rewrite Join_app by done. eexists. by rewrite app_comm_cons.
Qed.

Lemma names_of_path_of names : Forall is_name names → names_of (path_of names) = names.
Proof.
  intros Hn. unfold names_of, path_of. cbn [segments].
  change (IsPathSeparator Separator) with true. cbn iota.
  rewrite filter_cons_False by (intros H; by apply H).
  destruct (decide (names = [])) as [->|Hne]; [done|].
  rewrite segments_Join_names by done.
  induction Hn as [|s names Hs Hn IH]; [done|].
  rewrite filter_cons_True by by apply is_name_nonnil.
  f_equal. destruct names; [done|]. by apply IH.
Qed.

End canonical_paths.

(** ** The path sanitizer *)

Section safePath_facts.
Import filepath segs.

(** [safePath] computed: the candidate, the verdict, and the one record
    added to the trace. *)
Lemma safePath_run s filename w :
  safePath s filename w =
  (((Abs (getwd w) (Join [root s; filename])).1,
    if bool_decide (is_Some (Abs (getwd w) (Join [root s; filename])).2)
       || negb (strings.HasPrefix (Abs (getwd w) (Join [root s; filename])).1 (root s))
    then Some unsafe_filename else None),
   set_trace (trace w ++ [EvLog (sanitized_entry s filename
                                   (Abs (getwd w) (Join [root s; filename])).1)]) w).
Proof.
  unfold safePath, bind, log_entry, emit, ret.
  destruct (Abs (getwd w) (Join [root s; filename])) as [c e]. cbn [fst snd].
  unfold sanitized_entry.
  by destruct (bool_decide (is_Some e) || negb (strings.HasPrefix c (root s))).
Qed.

(** With an absolute root the candidate is the cleaned concatenation,
    whatever the working directory. *)
Lemma candidate_abs_root R filename wd :
  IsAbs R = true →
  Abs wd (Join [R; filename]) = (Clean (R ++ Separator :: filename), None).
Proof.
  intros HR. unfold Abs. rewrite Join_abs by done.
  rewrite Join_rooted by done. f_equal.
  apply Clean_abs_canonical. apply IsAbs_cons in HR as [r ->].
  apply IsAbs_cons. by eexists.
Qed.

Lemma safePath_abs_root s filename w :
  IsAbs (root s) = true →
  safePath s filename w =
  let c := Clean (root s ++ Separator :: filename) in
  ((c, if strings.HasPrefix c (root s) then None else Some unsafe_filename),
   set_trace (trace w ++ [EvLog (sanitized_entry s filename c)]) w).
Proof.
  intros HR. rewrite safePath_run, candidate_abs_root by done. cbn [fst snd].
  rewrite bool_decide_eq_false_2 by (by intros [? ?]). cbn [orb].
  by destruct (strings.HasPrefix _ _).
Qed.

(** C2: [safePath] joins root and file name, makes the result absolute
    and canonical, and returns this candidate with no error exactly when
    making it absolute did not fail and the text of the root is a prefix
    of the text of the candidate; otherwise it returns the error.  Making
    the path absolute fails only when the joined path is relative and the
    working directory cannot be read; the candidate made is absolute and
    written out from names, with no empty, [.] or [..] segment; and for
    an absolute root it is the path with the names left when the segments
    of the root and then those of the file name are walked, [..] stepping
    back and never above [/]. *)
Theorem safePath_accepts_iff_string_prefix (s : tftpServer) (filename : gostring) (w : World) :
  let candidate := Abs (getwd w) (Join [root s; filename]) in
  let result := (safePath s filename w).1 in
  result.1 = candidate.1 ∧
  (result.2 = None ↔ candidate.2 = None ∧ root s `prefix_of` candidate.1) ∧
  (result.2 ≠ None → result.2 = Some unsafe_filename) ∧
  (candidate.2 = None ↔ IsAbs (Join [root s; filename]) = true ∨ (getwd w).2 = None) ∧
  (((getwd w).2 = None → IsAbs (getwd w).1 = true) → candidate.2 = None →
   ∃ names, Forall is_name names ∧ candidate.1 = path_of names) ∧
  (IsAbs (root s) = true →
   candidate
   = (path_of (reverse (resolve (segments (root s) ++ segments filename) [])), None)).
Proof.
  cbn zeta. rewrite safePath_run. cbn [fst snd].
  split_and!.
  - done.
  - destruct (Abs (getwd w) (Join [root s; filename])) as [c [e|]]; cbn [fst snd].
    + rewrite bool_decide_eq_true_2 by by eexists. cbn [orb].
      split; [done | by intros [? _]].
    + rewrite bool_decide_eq_false_2 by (by intros [? ?]). cbn [orb].
      rewrite <- HasPrefix_prefix.
      destruct (strings.HasPrefix c (root s)); cbn [negb];
        split; try done; by intros [_ ?].
  - by destruct (_ || _).
  - apply Abs_error.
  - intros Hwd He.
    destruct (Abs (getwd w) (Join [root s; filename])) as [c e] eqn:HA.
    cbn [fst snd] in *. subst e.
    destruct (Abs_canonical _ _ _ Hwd HA) as [Habs Hclean].
    by apply canonical_names.
  - intros HR. rewrite candidate_abs_root by done.
    by rewrite Clean_root_segments.
Qed.

Lemma safePath_accepts_iff_string_prefix_witness :
  (safePath examples.server ("pxe/../x/./boot.bin"%string : gostring) examples.world).1
  = (("/srv/tftp/x/boot.bin"%string : gostring), None).
Proof.
  destruct (safePath_accepts_iff_string_prefix examples.server
              ("pxe/../x/./boot.bin"%string : gostring) examples.world)
    as (H1 & H2 & _ & _ & _ & H6).
  cbn zeta in H6. specialize (H6 eq_refl).
  apply injective_projections.
  - rewrite H1, H6. reflexivity.
  - apply H2. rewrite H6. split; [reflexivity|].
    exists ("/x/boot.bin"%string : gostring). reflexivity.
Defined.

(** C1, at the failing input: with the root [/srv/tftp] the traversal
    [../tftp-other/x] resolves to [/srv/tftp-other/x], which is outside
    the root (the root is not a path-prefix of it), and [safePath]
    returns it with no error. *)
Theorem safePath_accepts_sibling_directory (w : World) :
  (safePath examples.server ("../tftp-other/x"%string : gostring) w).1
    = (("/srv/tftp-other/x"%string : gostring), None) ∧
  ¬ HasPathPrefix ("/srv/tftp-other/x"%string : gostring) (root examples.server).
Proof.
  split.
  - rewrite safePath_abs_root by reflexivity. reflexivity.
  - apply (bool_decide_eq_false_1 _). vm_compute. reflexivity.
Qed.

(** A traversal that leaves the root for a directory whose text does not
    begin with the text of the root is rejected. *)
Example safePath_rejects_etc_passwd (w : World) :
  (safePath examples.server ("../../etc/passwd"%string : gostring) w).1
    = (("/etc/passwd"%string : gostring), Some unsafe_filename).
Proof. rewrite safePath_abs_root by reflexivity. reflexivity. Qed.

(** C9: for an absolute root, [safePath] returns the same path and the
    same verdict in every world, so also when it is called a second time;
    all it does to the world is to add its debug record to the trace. *)
Theorem safePath_deterministic (s : tftpServer) (filename : gostring) (w1 w2 : World) :
  IsAbs (root s) = true →
  (safePath s filename w1).1 = (safePath s filename w2).1 ∧
  (safePath s filename (safePath s filename w1).2).1 = (safePath s filename w1).1 ∧
  (safePath s filename w1).2 =
    set_trace (trace w1 ++ [EvLog (sanitized_entry s filename (safePath s filename w1).1.1)]) w1.
Proof.
  intros HR. rewrite !safePath_abs_root by done. done.
Qed.

Lemma safePath_deterministic_witness :
  IsAbs (root examples.server) = true ∧
  (safePath examples.server examples.boot_bin examples.world).1
    = (safePath examples.server examples.boot_bin
         (set_now 5 (set_files ∅ examples.world))).1.
Proof.
  split; [reflexivity|].
  apply (safePath_deterministic examples.server examples.boot_bin
           examples.world (set_now 5 (set_files ∅ examples.world))).
  reflexivity.
Defined.

(** The names of the file name are appended to the names of a canonical
    root when the file name has no [..] segment. *)
Lemma Clean_root_filename names filename :
  Forall is_name names → dotdot ∉ segments filename →
  Clean (path_of names ++ Separator :: filename)
  = path_of (names ++ filter is_name (segments filename)).
Proof.
  intros Hn Hdd. rewrite <- Join_rooted by apply IsAbs_path_of.
  rewrite Join_names by done.
  rewrite resolve_no_dotdot by (done || apply segments_nonsep).
  by rewrite reverse_app, !reverse_involutive.
Qed.

(** C3: for an absolute canonical root (what [Provision] stores) and a
    file name without [..] segments, [safePath] returns no error, and the
    root is a path-prefix of the path it returns. *)
Theorem safePath_accepts_below_root (s : tftpServer) (filename : gostring) (w : World) :
  IsAbs (root s) = true → Clean (root s) = root s →
  dotdot ∉ segments filename →
  ∃ c, (safePath s filename w).1 = (c, None) ∧ HasPathPrefix c (root s).
Proof.
  intros HR Hc Hdd.
  destruct (canonical_names (root s) HR Hc) as (names & Hn & Heq).
  rewrite safePath_abs_root by done. cbn zeta. cbn [fst].
  rewrite Heq, Clean_root_filename by done.
  eexists. split.
  - rewrite (proj2 (HasPrefix_prefix _ _)); [done|]. apply path_of_app_prefix.
  - unfold HasPathPrefix. rewrite !names_of_path_of.
    + by eexists.
    + apply Forall_app. split; [done|apply is_name_filter].
    + done.
Qed.

Lemma safePath_accepts_below_root_witness :
  ∃ c, (safePath examples.server ("/pxe/./boot.bin"%string : gostring) examples.world).1
       = (c, None) ∧ HasPathPrefix c (root examples.server).
Proof.
  apply (safePath_accepts_below_root examples.server
           ("/pxe/./boot.bin"%string : gostring) examples.world).
  - reflexivity.
  - reflexivity.
  - apply (bool_decide_eq_true_1 _). vm_compute. reflexivity.
Defined.

End safePath_facts.

(** ** The fields of a changed world *)

Lemma getwd_set_files x w : getwd (set_files x w) = getwd w.
Proof. done. Qed.

Lemma files_set_files x w : files (set_files x w) = x.
Proof. done. Qed.

Lemma open_fault_set_files x w : open_fault (set_files x w) = open_fault w.
Proof. done. Qed.

Lemma now_set_files x w : now (set_files x w) = now w.
Proof. done. Qed.

Lemma net_listen_set_files x w : net_listen (set_files x w) = net_listen w.
Proof. done. Qed.

Lemma bound_set_files x w : bound (set_files x w) = bound w.
Proof. done. Qed.

Lemma trace_set_files x w : trace (set_files x w) = trace w.
Proof. done. Qed.

Lemma getwd_set_now x w : getwd (set_now x w) = getwd w.
Proof. done. Qed.

Lemma files_set_now x w : files (set_now x w) = files w.
Proof. done. Qed.

Lemma open_fault_set_now x w : open_fault (set_now x w) = open_fault w.
Proof. done. Qed.

Lemma now_set_now x w : now (set_now x w) = x.
Proof. done. Qed.

Lemma net_listen_set_now x w : net_listen (set_now x w) = net_listen w.
Proof. done. Qed.

Lemma bound_set_now x w : bound (set_now x w) = bound w.
Proof. done. Qed.

Lemma trace_set_now x w : trace (set_now x w) = trace w.
Proof. done. Qed.

Lemma getwd_set_bound x w : getwd (set_bound x w) = getwd w.
Proof. done. Qed.

Lemma files_set_bound x w : files (set_bound x w) = files w.
Proof. done. Qed.

Lemma open_fault_set_bound x w : open_fault (set_bound x w) = open_fault w.
Proof. done. Qed.

Lemma now_set_bound x w : now (set_bound x w) = now w.
Proof. done. Qed.

Lemma net_listen_set_bound x w : net_listen (set_bound x w) = net_listen w.
Proof. done. Qed.

Lemma bound_set_bound x w : bound (set_bound x w) = x.
Proof. done. Qed.

Lemma trace_set_bound x w : trace (set_bound x w) = trace w.
Proof. done. Qed.

Lemma getwd_set_trace x w : getwd (set_trace x w) = getwd w.
Proof. done. Qed.

Lemma files_set_trace x w : files (set_trace x w) = files w.
Proof. done. Qed.

Lemma open_fault_set_trace x w : open_fault (set_trace x w) = open_fault w.
Proof. done. Qed.

Lemma now_set_trace x w : now (set_trace x w) = now w.
Proof. done. Qed.

Lemma net_listen_set_trace x w : net_listen (set_trace x w) = net_listen w.
Proof. done. Qed.

Lemma bound_set_trace x w : bound (set_trace x w) = bound w.
Proof. done. Qed.

Lemma trace_set_trace x w : trace (set_trace x w) = x.
Proof. done. Qed.

Create Rewrite HintDb world.
#[global] Hint Rewrite
  getwd_set_files files_set_files open_fault_set_files now_set_files
  net_listen_set_files bound_set_files trace_set_files getwd_set_now
  files_set_now open_fault_set_now now_set_now net_listen_set_now
  bound_set_now trace_set_now getwd_set_bound files_set_bound
  open_fault_set_bound now_set_bound net_listen_set_bound bound_set_bound
  trace_set_bound getwd_set_trace files_set_trace open_fault_set_trace
  now_set_trace net_listen_set_trace bound_set_trace trace_set_trace
  : world.

(** ** The transfer handlers *)

(** Running a computation one step further. *)
Ltac step_M :=
  unfold log_entry, bind, ret, emit; cbn [fst snd]; autorewrite with world.

(** The events added, with no record of level Info among them. *)
Ltac close_events :=
  eexists; rewrite <- ?app_assoc; (split_and!; [done | repeat constructor | done]).

Section handler_facts.
Import filepath segs.

Lemma readHandler_unfold s filename rf w :
  readHandler s filename rf w =
  run_deferred (accessLog s) (rf_remote rf) "GET"%string "bytes_written"%string
    filename (now w) (read_body s filename rf w).
Proof.
  unfold readHandler, run_deferred.
  unfold bind, ret, time_Now, access_record, log_entry, emit, access_entry.
  destruct (accessLog s) as [al|];
    destruct (read_body s filename rf w) as [[n result] w1]; reflexivity.
Qed.

Lemma writeHandler_unfold s filename wt w :
  writeHandler s filename wt w =
  run_deferred (accessLog s) (wt_remote wt) "PUT"%string "bytes_read"%string
    filename (now w) (write_body s filename wt w).
Proof.
  unfold writeHandler, run_deferred.
  unfold bind, ret, time_Now, access_record, log_entry, emit, access_entry.
  destruct (accessLog s) as [al|];
    destruct (write_body s filename wt w) as [[n result] w1]; reflexivity.
Qed.

(** The flags of [writeHandler] ask for an exclusive creation. *)
Lemma write_flags_exclusive :
  os.has_flag (Z.lor os.O_WRONLY (Z.lor os.O_CREATE os.O_EXCL)) os.O_CREATE
  && os.has_flag (Z.lor os.O_WRONLY (Z.lor os.O_CREATE os.O_EXCL)) os.O_EXCL = true.
Proof. reflexivity. Qed.

(** Opening an existing file for exclusive creation fails and leaves the
    files as they are. *)
Lemma OpenFile_exclusive_existing p content w :
  files w !! p = Some content →
  ∃ e, os.OpenFile p (Z.lor os.O_WRONLY (Z.lor os.O_CREATE os.O_EXCL)) 420 w
       = (([], Some e),
          set_trace (trace w ++ [EvOpen p (Z.lor os.O_WRONLY (Z.lor os.O_CREATE os.O_EXCL))]) w).
Proof.
  intros Hp. unfold os.OpenFile, bind, emit. cbn [fst snd].
  change (open_fault (set_trace ?t w)) with (open_fault w).
  destruct (open_fault w p) as [e|]; [by eexists|].
  change (files (set_trace ?t w)) with (files w).
  rewrite Hp, write_flags_exclusive. by eexists.
Qed.

(** The body of [writeHandler] on an existing file. *)
Lemma write_body_existing_file s filename wt w p content :
  (safePath s filename w).1 = (p, None) →
  files w !! p = Some content →
  ∃ e, write_body s filename wt w =
       ((0%Z, Some e),
        set_trace (trace w ++
          [EvLog (sanitized_entry s filename p);
           EvOpen p (Z.lor os.O_WRONLY (Z.lor os.O_CREATE os.O_EXCL));
           EvLog (mkEntry (logger_name (log s)) ErrorLevel (ErrorText e)
                    [zap.String "filename"%string filename])]) w).
Proof.
  intros Hsafe Hp. unfold write_body, bind.
  rewrite safePath_run in Hsafe |- *.
  destruct (Abs (getwd w) (Join [root s; filename])) as [c e0]. cbn [fst snd] in *.
  destruct (bool_decide (is_Some e0) || negb (strings.HasPrefix c (root s)));
    [discriminate|]. injection Hsafe as ->.
  edestruct (OpenFile_exclusive_existing p content) as [e ->].
  { change (files (set_trace ?t w)) with (files w). apply Hp. }
  exists e. unfold log_entry, emit, ret. cbn [trace set_trace].
  by rewrite <- !app_assoc.
Qed.

(** C4: when the path resolved for a write request names an existing
    file, [writeHandler] returns an error, no [WriteTo] has run, and the
    files, with their contents, are as they were. *)
Theorem writeHandler_existing_file (s : tftpServer) (filename : gostring)
  (wt : WriterTo) (w : World) (p : gostring) (content : list ascii) :
  (safePath s filename w).1 = (p, None) →
  files w !! p = Some content →
  ∃ e added,
    (writeHandler s filename wt w).1 = Some e ∧
    files (writeHandler s filename wt w).2 = files w ∧
    trace (writeHandler s filename wt w).2 = trace w ++ added ∧
    Forall (λ ev, is_transfer ev = false) added.
Proof.
  intros Hsafe Hp. rewrite writeHandler_unfold.
  destruct (write_body_existing_file s filename wt w p content Hsafe Hp) as [e ->].
  exists e. unfold run_deferred. destruct (accessLog s) as [al|]; cbn [fst snd].
  - eexists. split_and!; [done | done | |].
    + cbn [trace set_trace]. by rewrite <- app_assoc.
    + repeat constructor.
  - eexists. split_and!; [done | done | done |]. repeat constructor.
Qed.

Lemma writeHandler_existing_file_witness :
  ∃ e added,
    (writeHandler examples.server ("boot.bin"%string : gostring)
       examples.upload examples.world).1 = Some e ∧
    files (writeHandler examples.server ("boot.bin"%string : gostring)
             examples.upload examples.world).2 = files examples.world ∧
    trace (writeHandler examples.server ("boot.bin"%string : gostring)
             examples.upload examples.world).2 = trace examples.world ++ added ∧
    Forall (λ ev, is_transfer ev = false) added.
Proof.
  apply (writeHandler_existing_file examples.server ("boot.bin"%string : gostring)
           examples.upload examples.world examples.boot_bin
           ("0123456789"%string : gostring)).
  - rewrite safePath_abs_root by reflexivity. reflexivity.
  - reflexivity.
Defined.

(** The events of the body of a handler: no record of level Info, and
    the value of [n] is the byte count of the transfer, zero without one. *)
Lemma read_body_events s filename rf w :
  ∃ added,
    trace (read_body s filename rf w).2 = trace w ++ added ∧
    Forall (λ ev, is_info ev = false) added ∧
    (read_body s filename rf w).1.1 = transferred added.
Proof.
  unfold read_body, bind. rewrite safePath_run.
  destruct (Abs (getwd w) (Join [root s; filename])) as [c e0]. cbn [fst snd].
  destruct (bool_decide (is_Some e0) || negb (strings.HasPrefix c (root s))).
  { step_M. close_events. }
  unfold os.Open, os.OpenFile. step_M.
  destruct (open_fault w c) as [e|].
  { step_M. close_events. }
  destruct (files w !! c) as [content|] eqn:Hc.
  2:{ change (os.has_flag os.O_RDONLY os.O_CREATE) with false. cbn iota.
      step_M. close_events. }
  change (os.has_flag os.O_RDONLY os.O_CREATE && os.has_flag os.O_RDONLY os.O_EXCL)
    with false.
  change (os.has_flag os.O_RDONLY os.O_TRUNC) with false. cbn iota.
  unfold ReadFrom. autorewrite with world.
  destruct (rf_send rf (default [] (files w !! c))) as [[n err] dt].
  destruct err as [e|]; step_M; close_events.
Qed.

Lemma write_body_events s filename wt w :
  ∃ added,
    trace (write_body s filename wt w).2 = trace w ++ added ∧
    Forall (λ ev, is_info ev = false) added ∧
    (write_body s filename wt w).1.1 = transferred added.
Proof.
  unfold write_body, bind. rewrite safePath_run.
  destruct (Abs (getwd w) (Join [root s; filename])) as [c e0]. cbn [fst snd].
  destruct (bool_decide (is_Some e0) || negb (strings.HasPrefix c (root s))).
  { step_M. close_events. }
  unfold os.OpenFile. step_M.
  destruct (open_fault w c) as [e|].
  { step_M. close_events. }
  destruct (files w !! c) as [content|] eqn:Hc.
  { rewrite write_flags_exclusive. step_M. close_events. }
  change (os.has_flag (Z.lor os.O_WRONLY (Z.lor os.O_CREATE os.O_EXCL)) os.O_CREATE)
    with true. cbn iota.
  unfold WriteTo. autorewrite with world.
  destruct (wt_err wt) as [e|]; step_M; close_events.
Qed.

(** On every exit path a handler writes the access-log record exactly
    once, as its last event, when [accessLog] is not nil, and writes none
    when it is nil. *)
Lemma readHandler_access_log s filename rf w :
  ∃ added,
    Forall (λ ev, is_info ev = false) added ∧
    trace (readHandler s filename rf w).2 =
    trace w ++ added ++
    match accessLog s with
    | Some al =>
        [EvLog (access_entry al (rf_remote rf) "GET"%string "bytes_written"%string
                  filename (transferred added)
                  (now (readHandler s filename rf w).2 - now w))]
    | None => []
    end.
Proof.
  rewrite readHandler_unfold.
  destruct (read_body_events s filename rf w) as (added & Ht & Hi & Hn).
  destruct (read_body s filename rf w) as [[n result] w1]. cbn [fst snd] in *.
  exists added. split; [done|]. unfold run_deferred.
  destruct (accessLog s) as [al|]; cbn [snd trace set_trace now].
  - by rewrite Ht, Hn, <- app_assoc.
  - by rewrite Ht, app_nil_r.
Qed.

Lemma writeHandler_access_log s filename wt w :
  ∃ added,
    Forall (λ ev, is_info ev = false) added ∧
    trace (writeHandler s filename wt w).2 =
    trace w ++ added ++
    match accessLog s with
    | Some al =>
        [EvLog (access_entry al (wt_remote wt) "PUT"%string "bytes_read"%string
                  filename (transferred added)
                  (now (writeHandler s filename wt w).2 - now w))]
    | None => []
    end.
Proof.
  rewrite writeHandler_unfold.
  destruct (write_body_events s filename wt w) as (added & Ht & Hi & Hn).
  destruct (write_body s filename wt w) as [[n result] w1]. cbn [fst snd] in *.
  exists added. split; [done|]. unfold run_deferred.
  destruct (accessLog s) as [al|]; cbn [snd trace set_trace now].
  - by rewrite Ht, Hn, <- app_assoc.
  - by rewrite Ht, app_nil_r.
Qed.

End handler_facts.

Section handler_examples.
Import examples.

(** A download of [boot.bin] (ten bytes): no error, the bytes are sent, and
    the access log has the method, the raw file name and the byte count. *)
Example read_boot_bin :
  (readHandler server ("boot.bin"%string : gostring) download world).1 = None ∧
  trace (readHandler server ("boot.bin"%string : gostring) download world).2
  = [EvLog (sanitized_entry server ("boot.bin"%string : gostring) boot_bin);
     EvOpen boot_bin os.O_RDONLY;
     EvReadFrom boot_bin 10;
     EvLog (access_entry (zap.Named logger "access"%string) (Some client)
              "GET"%string "bytes_written"%string ("boot.bin"%string : gostring) 10 1000)].
Proof. split; vm_compute; reflexivity. Qed.

(** A read of [../secret.txt] is rejected before any file is opened. *)
Example read_traversal :
  (readHandler server ("../secret.txt"%string : gostring) download world).1
  = Some unsafe_filename ∧
  trace (readHandler server ("../secret.txt"%string : gostring) download world).2
  = [EvLog (sanitized_entry server ("../secret.txt"%string : gostring)
              ("/srv/secret.txt"%string : gostring));
     EvLog (mkEntry (logger_name logger) ErrorLevel (ErrorText unsafe_filename)
              [zap.String "filename"%string ("../secret.txt"%string : gostring)]);
     EvLog (access_entry (zap.Named logger "access"%string) (Some client)
              "GET"%string "bytes_written"%string ("../secret.txt"%string : gostring) 0 0)].
Proof. split; vm_compute; reflexivity. Qed.

(** An upload of a new file creates it with the bytes received; the same
    upload again fails with [EEXIST] and leaves the file as it is. *)
Example write_new_then_again :
  let w1 := (writeHandler server ("new.img"%string : gostring) upload world).2 in
  (writeHandler server ("new.img"%string : gostring) upload world).1 = None ∧
  files w1 !! ("/srv/tftp/new.img"%string : gostring) = Some (wt_data upload) ∧
  (writeHandler server ("new.img"%string : gostring)
     (mkWriterTo (Some client) ("other"%string : gostring) None 1000) w1).1
  = Some (PathError "open"%string ("/srv/tftp/new.img"%string : gostring) EEXIST) ∧
  files (writeHandler server ("new.img"%string : gostring)
           (mkWriterTo (Some client) ("other"%string : gostring) None 1000) w1).2
    !! ("/srv/tftp/new.img"%string : gostring) = Some (wt_data upload).
Proof. cbn zeta. split_and!; vm_compute; reflexivity. Qed.

End handler_examples.

(** ** Provisioning *)

Section provision_facts.
Import filepath segs.

Variable parse : gostring → gostring → N → NetworkAddress * option error.

Lemma Provision_range_cons c nm srv entries acc w :
  Provision_range parse c ((nm, srv) :: entries) acc w =
  match Abs (getwd w) (Root srv) with
  | (_, Some e) => ((acc, Some e), w)
  | (rt, None) =>
      match parse (Listen srv) udp 69 with
      | (_, Some e) => ((acc, Some e), w)
      | (a, None) =>
          if negb (bool_decide (Network a = udp)) then ((acc, Some only_udp), w)
          else Provision_range parse c entries
                 (acc ++ [{| tftp_timeout := tftp.SetTimeout (Timeout srv); name := nm;
                             root := rt; addr := a; log := zap.Named (ctx_logger c) nm;
                             accessLog := Some (zap.Named (zap.Named (ctx_logger c) nm)
                                                  "access"%string) |}]) w
      end
  end.
Proof.
  cbn [Provision_range]. unfold bind, ret.
  destruct (Abs (getwd w) (Root srv)) as [rt [e|]]; [done|].
  destruct (parse (Listen srv) udp 69) as [a [e|]]; [done|].
  by destruct (negb (bool_decide (Network a = udp))).
Qed.

(** The loop of [Provision] leaves the world as it is; it returns no error
    exactly when every entry passes the checks, and then it has added the
    server of each entry, in order. *)
Lemma Provision_range_spec c entries acc w :
  (Provision_range parse c entries acc w).2 = w ∧
  ((Provision_range parse c entries acc w).1.2 = None ↔ Forall (entry_ok parse w) entries) ∧
  ((Provision_range parse c entries acc w).1.2 = None →
   (Provision_range parse c entries acc w).1.1 = acc ++ map (instance_of parse c w) entries).
Proof.
  revert acc. induction entries as [|[nm srv] entries IH]; intros acc.
  { cbn. rewrite app_nil_r. split_and!; [done | done | done]. }
  rewrite Provision_range_cons.
  destruct (Abs (getwd w) (Root srv)) as [rt [e|]] eqn:Habs.
  { cbn [fst snd]. split_and!; [done | | done].
    split; [done|]. intros [(H & _) _]%Forall_cons. cbn [fst snd] in H. by rewrite Habs in H. }
  destruct (parse (Listen srv) udp 69) as [a [e|]] eqn:Hparse.
  { cbn [fst snd]. split_and!; [done | | done].
    split; [done|]. intros [(_ & H & _) _]%Forall_cons. cbn [fst snd] in H. by rewrite Hparse in H. }
  destruct (bool_decide (Network a = udp)) eqn:Hudp; cbn [negb].
  2:{ cbn [fst snd]. split_and!; [done | | done].
      split; [done|]. intros [(_ & _ & H) _]%Forall_cons.
      unfold parsed in H. cbn [fst snd] in H. rewrite Hparse in H.
      apply bool_decide_eq_false in Hudp. done. }
  apply bool_decide_eq_true in Hudp.
  destruct (IH (acc ++ [{| tftp_timeout := tftp.SetTimeout (Timeout srv); name := nm;
                           root := rt; addr := a; log := zap.Named (ctx_logger c) nm;
                           accessLog := Some (zap.Named (zap.Named (ctx_logger c) nm)
                                                "access"%string) |}]))
    as (IHw & IHok & IHacc).
  split_and!.
  - done.
  - rewrite IHok, Forall_cons. split; [|tauto]. intros H. split; [|done].
    unfold entry_ok, parsed. cbn [fst snd]. by rewrite Habs, Hparse.
  - intros H. rewrite (IHacc H), <- app_assoc. cbn [map app].
    unfold instance_of, parsed. cbn [fst snd]. by rewrite Habs, Hparse.
Qed.

Lemma Provision_spec app c w :
  (Provision parse app c w).2 = w ∧
  ((Provision parse app c w).1.2 = None ↔ Forall (entry_ok parse w) (Servers app)) ∧
  ((Provision parse app c w).1.2 = None →
   servers (Provision parse app c w).1.1
   = servers app ++ map (instance_of parse c w) (Servers app)).
Proof.
  destruct (Provision_range_spec c (Servers app) (servers app) w) as (Hw & Hok & Hacc).
  unfold Provision, bind, ret.
  destruct (Provision_range parse c (Servers app) (servers app) w) as [[acc' e] w'].
  cbn [fst snd servers] in *. done.
Qed.

(** Every server [Provision] makes has an access logger, whatever the
    field [Logs] of its entry says. *)
Lemma instance_of_accessLog c w e : is_Some (accessLog (instance_of parse c w e)).
Proof. by eexists. Qed.

(** So the read handler of a server made by [Provision] writes the
    access-log record on every exit path, with [Logs] true or false. *)
Lemma provisioned_server_logs_reads c w0 e filename rf w :
  ∃ added,
    Forall (λ ev, is_info ev = false) added ∧
    trace (readHandler (instance_of parse c w0 e) filename rf w).2 =
    trace w ++ added ++
    [EvLog (access_entry (zap.Named (zap.Named (ctx_logger c) e.1) "access"%string)
              (rf_remote rf) "GET"%string "bytes_written"%string filename
              (transferred added)
              (now (readHandler (instance_of parse c w0 e) filename rf w).2 - now w))].
Proof.
  destruct (readHandler_access_log (instance_of parse c w0 e) filename rf w)
    as (added & Hi & Ht).
  exists added. split; [done|]. by rewrite Ht.
Qed.

(** The roots stored by [Provision] are absolute and canonical. *)
Lemma instance_of_root c w e :
  ((getwd w).2 = None → IsAbs (getwd w).1 = true) → entry_ok parse w e →
  IsAbs (root (instance_of parse c w e)) = true ∧
  Clean (root (instance_of parse c w e)) = root (instance_of parse c w e).
Proof.
  intros Hwd (Habs & _). cbn [root instance_of].
  apply (Abs_canonical (getwd w) (Root e.2)); [done|].
  destruct (Abs (getwd w) (Root e.2)) as [R e']. cbn in Habs. by subst.
Qed.

(** C6, amended: [Provision] does not compare listener addresses.  It
    returns no error exactly when every entry passes its own checks (the
    root resolves, the address parses, the network is udp), and the
    servers it has added then carry the parsed addresses of the entries, in
    order, equal ones included. *)
Theorem Provision_does_not_compare_addresses (app : TFTP) (c : Context) (w : World) :
  ((Provision parse app c w).1.2 = None ↔ Forall (entry_ok parse w) (Servers app)) ∧
  ((Provision parse app c w).1.2 = None →
   map addr (servers (Provision parse app c w).1.1)
   = map addr (servers app) ++ map (parsed parse) (Servers app)).
Proof.
  destruct (Provision_spec app c w) as (_ & Hok & Hacc). split; [done|].
  intros H. rewrite (Hacc H), map_app, map_map. done.
Qed.

(** A successful [Provision] adds exactly one server for every entry of
    the configuration, whatever the size of the port range of its
    address; the server has the name of the entry and the whole parsed
    address. *)
Lemma Provision_one_instance_per_entry (app : TFTP) (c : Context) (w : World) :
  (Provision parse app c w).1.2 = None →
  ∃ new,
    servers (Provision parse app c w).1.1 = servers app ++ new ∧
    length new = length (Servers app) ∧
    Forall2 (λ e s, name s = e.1 ∧ addr s = parsed parse e) (Servers app) new.
Proof.
  intros H. destruct (Provision_spec app c w) as (_ & _ & Hacc).
  exists (map (instance_of parse c w) (Servers app)).
  split_and!; [by apply Hacc | by rewrite length_map |].
  apply Forall2_fmap_r, Forall_Forall2_diag, Forall_forall. done.
Qed.

End provision_facts.

Section provision_examples.
Import examples.

Example parse_default :
  caddy.ParseNetworkAddressWithDefaults [] udp 69 = (mkNetworkAddress udp [] 69 69, None).
Proof. reflexivity. Qed.

Example parse_port :
  caddy.ParseNetworkAddressWithDefaults ":69"%string udp 69
  = (mkNetworkAddress udp [] 69 69, None).
Proof. reflexivity. Qed.

Example parse_range :
  caddy.ParseNetworkAddressWithDefaults "udp/:6900-6902"%string udp 69
  = (mkNetworkAddress udp [] 6900 6902, None).
Proof. reflexivity. Qed.

Example parse_tcp :
  (caddy.ParseNetworkAddressWithDefaults "TCP/localhost:69"%string udp 69).1
  = mkNetworkAddress "tcp"%string "localhost"%string 69 69.
Proof. reflexivity. Qed.

(** C6, the counterexample: two entries with the listener address [:69];
    [Provision] returns no error and the two servers have the same
    address. *)
Lemma Provision_accepts_same_address :
  (Provision caddy.ParseNetworkAddressWithDefaults
     (app_of config_same_address) context world).1.2 = None ∧
  ¬ NoDup (map addr (servers (Provision caddy.ParseNetworkAddressWithDefaults
                                (app_of config_same_address) context world).1.1)).
Proof.
  split; [reflexivity|].
  apply (bool_decide_eq_false_1 _). vm_compute. reflexivity.
Qed.

(** C7, at the failing input: one entry whose listener address has the
    three ports 6900 to 6902.  [Provision] returns no error and makes one
    server, not three; [Start] then binds one listener, with port offset
    0, and launches one serving task: nothing listens on the ports 6901
    and 6902. *)
Theorem Provision_port_range_one_instance :
  let e := (("pxe"%string : gostring),
            mkServer "udp/:6900-6902"%string srv_tftp 0 true) in
  let s := instance_of caddy.ParseNetworkAddressWithDefaults context world e in
  let app := (Provision caddy.ParseNetworkAddressWithDefaults
                (app_of config_port_range) context world).1.1 in
  Servers (app_of config_port_range) = [e] ∧
  parsed caddy.ParseNetworkAddressWithDefaults e = mkNetworkAddress udp [] 6900 6902 ∧
  PortRangeSize (parsed caddy.ParseNetworkAddressWithDefaults e) = 3%N ∧
  (Provision caddy.ParseNetworkAddressWithDefaults
     (app_of config_port_range) context world).1.2 = None ∧
  servers app = [s] ∧
  length (servers app)
  ≠ N.to_nat (PortRangeSize (parsed caddy.ParseNetworkAddressWithDefaults e)) ∧
  (Start app world).1.2 = None ∧
  trace (Start app world).2
  = [EvListen (mkNetworkAddress udp [] 6900 6902) 0;
     EvGo (task_of s);
     EvLog (server_entry s "server running"%string)] ∧
  errGroup (Start app world).1.1 = Some (errgroup.mkGroup [task_of s] None).
Proof.
  cbn zeta.
  split_and!; [reflexivity | reflexivity | reflexivity | reflexivity | reflexivity
              | vm_compute; lia | vm_compute; reflexivity | vm_compute; reflexivity
              | vm_compute; reflexivity].
Qed.

(** [Provision_one_instance_per_entry] at the entry with the three ports. *)
Lemma Provision_one_instance_per_entry_witness :
  ∃ new,
    servers (Provision caddy.ParseNetworkAddressWithDefaults
               (app_of config_port_range) context world).1.1
    = servers (app_of config_port_range) ++ new ∧
    length new = length (Servers (app_of config_port_range)) ∧
    Forall2 (λ e s, name s = e.1 ∧ addr s = parsed caddy.ParseNetworkAddressWithDefaults e)
      (Servers (app_of config_port_range)) new.
Proof.
  apply (Provision_one_instance_per_entry caddy.ParseNetworkAddressWithDefaults
           (app_of config_port_range) context world).
  reflexivity.
Defined.

(** C5, at the failing input: the configuration switches access logging
    off ([Logs] is false); [Provision] makes the server with an access
    logger all the same, and the read handler writes the access-log
    record. *)
Theorem access_log_written_with_Logs_false :
  Forall (λ e : gostring * Server, Logs e.2 = false) config_no_logs ∧
  (Provision caddy.ParseNetworkAddressWithDefaults
     (app_of config_no_logs) context world).1
  = (mkTFTP config_no_logs [server] (Some context) None, None) ∧
  filter is_info (trace (readHandler server ("boot.bin"%string : gostring)
                           download world).2)
  = [EvLog (access_entry (zap.Named logger "access"%string) (Some client)
              "GET"%string "bytes_written"%string ("boot.bin"%string : gostring) 10 1000)].
Proof.
  split_and!.
  - by repeat constructor.
  - reflexivity.
  - vm_compute. reflexivity.
Qed.

End provision_examples.

(** In the earlier revision an entry whose address has a range of [todo]
    ports got [todo] servers, every one with the whole address of the
    entry. *)
Lemma Legacy_Provision_ports handler c nm srv a todo acc :
  handler (Root srv) = None →
  Legacy.Provision_ports handler c nm srv a todo acc
  = (acc ++ replicate todo (Legacy.mktftpServer nm a (zap.Named (ctx_logger c) nm)), None).
Proof.
  intros Hh. revert acc. induction todo as [|todo IH]; intros acc.
  { cbn. by rewrite app_nil_r. }
  cbn [Legacy.Provision_ports replicate]. rewrite Hh, IH, <- app_assoc. done.
Qed.

(** ** Start and Stop *)

Section lifecycle_facts.

Lemma Start_range_cons s rest g w :
  Start_range (s :: rest) g w =
  match net_listen w (bound w) (addr s) 0%N with
  | ListenPacketConn =>
      Start_range rest (errgroup.Go g (task_of s))
        (set_trace (trace w ++ start_events s) (set_bound (bound w ++ [addr s]) w))
  | r =>
      ((g, Some (listen_failure s r)),
       set_trace (trace w ++ [EvListen (addr s) 0])
         (set_bound (bound w ++ match r with ListenError _ => [] | _ => [addr s] end) w))
  end.
Proof.
  cbn [Start_range]. unfold caddy.Listen, bind, emit, ret. cbn [fst snd].
  autorewrite with world.
  destruct (net_listen w (bound w) (addr s) 0%N); cbn [fst snd].
  - unfold start_events, task_of. autorewrite with world.
    by rewrite <- !app_assoc.
  - done.
  - rewrite app_nil_r. by destruct w.
Qed.

(** When every listener can be bound, [Start] launches one task per
    server, in order. *)
Lemma Start_range_ok ss g w :
  listens_ok (net_listen w) (bound w) ss →
  Start_range ss g w =
  ((errgroup.mkGroup (errgroup.wg g ++ map task_of ss) (errgroup.err g), None),
   set_trace (trace w ++ flat_map start_events ss)
     (set_bound (bound w ++ map addr ss) w)).
Proof.
  revert g w. induction ss as [|s ss IH]; intros g w Hok.
  { cbn. rewrite !app_nil_r. by destruct g, w. }
  destruct Hok as [Hs Hok]. rewrite Start_range_cons, Hs.
  rewrite IH by by autorewrite with world.
  autorewrite with world. unfold errgroup.Go. cbn [errgroup.wg errgroup.err flat_map map].
  by rewrite <- !app_assoc.
Qed.

(** When the listener of [s] cannot be bound, [Start] stops there: the
    tasks of the servers before [s] stay in the group, nothing is
    launched for [s] and the servers after it. *)
Lemma Start_range_fails pre s post g w r :
  listens_ok (net_listen w) (bound w) pre →
  net_listen w (bound w ++ map addr pre) (addr s) 0%N = r →
  r ≠ ListenPacketConn →
  Start_range (pre ++ s :: post) g w =
  ((errgroup.mkGroup (errgroup.wg g ++ map task_of pre) (errgroup.err g),
    Some (listen_failure s r)),
   set_trace (trace w ++ flat_map start_events pre ++ [EvListen (addr s) 0])
     (set_bound (bound w ++ map addr pre ++
                 match r with ListenError _ => [] | _ => [addr s] end) w)).
Proof.
  revert g w. induction pre as [|s' pre IH]; intros g w Hok Hr Hne.
  { cbn [app map flat_map] in *. rewrite !app_nil_r in *.
    rewrite Start_range_cons, Hr. destruct r; [done| |]; by destruct g. }
  destruct Hok as [Hs Hok]. cbn [app]. rewrite Start_range_cons, Hs.
  rewrite IH; autorewrite with world; [| done | by rewrite <- app_assoc | done].
  unfold errgroup.Go. cbn [errgroup.wg errgroup.err flat_map map].
  by rewrite <- !app_assoc.
Qed.

Lemma Stop_range_run ss w :
  Stop_range ss w = (tt, set_trace (trace w ++ flat_map stop_events ss) w).
Proof.
  revert w. induction ss as [|s ss IH]; intros w.
  { cbn. rewrite app_nil_r. by destruct w. }
  cbn [Stop_range]. unfold bind, emit. cbn [fst snd]. rewrite IH.
  autorewrite with world. cbn [flat_map]. unfold stop_events at 2.
  by rewrite <- !app_assoc.
Qed.

Lemma remove_first_perm t l : t ∈ l → l ≡ₚ t :: errgroup.remove_first t l.
Proof.
  induction l as [|x l IH]; [by intros ?%elem_of_nil|].
  intros Hin. cbn [errgroup.remove_first]. case_bool_decide as Hx.
  - by subst.
  - apply elem_of_cons in Hin as [->|Hin]; [done|].
    rewrite (IH Hin) at 1. apply perm_swap.
Qed.

(** The returns of the tasks of a group: they leave the wait group, and
    the error kept is the first one that is not nil. *)
Lemma foldl_done rs g rest :
  errgroup.wg g ≡ₚ map fst rs ++ rest →
  errgroup.wg (foldl errgroup.done g rs) ≡ₚ rest ∧
  errgroup.err (foldl errgroup.done g rs) =
    match errgroup.err g with
    | Some e => Some e
    | None => first_error rs
    end.
Proof.
  revert g. induction rs as [|[t e] rs IH]; intros g Hperm.
  { cbn. split; [done|]. by destruct (errgroup.err g). }
  cbn [foldl errgroup.done map fst app] in *.
  assert (t ∈ errgroup.wg g) as Hin.
  { rewrite Hperm. by left. }
  rewrite bool_decide_eq_true_2 by done.
  destruct (IH (errgroup.mkGroup (errgroup.remove_first t (errgroup.wg g))
                  (match errgroup.err g with Some e0 => Some e0 | None => e end)))
    as [Hwg Herr].
  { cbn [errgroup.wg]. apply (Permutation_cons_inv (a := t)).
    by rewrite <- remove_first_perm. }
  split; [done|]. rewrite Herr. cbn [errgroup.err first_error].
  destruct (errgroup.err g); [done|]. by destruct e.
Qed.

(** The tasks that return being among those launched, the wait group is
    empty exactly when every task launched has returned, and the error
    kept is the first one that is not nil. *)
Lemma foldl_done_outcome launched rs :
  map fst rs ⊆+ launched →
  errgroup.err (foldl errgroup.done (errgroup.mkGroup launched None) rs) = first_error rs ∧
  (errgroup.wg (foldl errgroup.done (errgroup.mkGroup launched None) rs) = [] ↔
   launched ≡ₚ map fst rs).
Proof.
  intros [rest Hrest]%submseteq_Permutation.
  destruct (foldl_done rs (errgroup.mkGroup launched None) rest) as [Hwg Herr]; [done|].
  split; [done|]. split.
  - intros H0. rewrite H0 in Hwg. apply Permutation_nil_l in Hwg. subst rest.
    by rewrite app_nil_r in Hrest.
  - intros Hp. apply Permutation_nil_r. rewrite Hwg.
    apply Permutation_length in Hrest, Hp. rewrite length_app in Hrest.
    destruct rest; [done|]. cbn [length] in Hrest. lia.
Qed.

(** [Stop], whatever the tasks do: the servers are shut down in order,
    then [Stop] waits, and it returns exactly when the wait group is
    empty. *)
Lemma Stop_run (app : TFTP) (g : errgroup.Group)
  (sched : list (Task * option error)) (w : World) :
  errGroup app = Some g →
  Stop app sched w =
  ((mkTFTP (Servers app) (servers app) (ctx app) (Some (foldl errgroup.done g sched)),
    match errgroup.wg (foldl errgroup.done g sched) with
    | [] => Returns (errgroup.err (foldl errgroup.done g sched))
    | _ => Blocks
    end),
   set_trace (trace w ++ flat_map stop_events (servers app) ++ [EvWait]) w).
Proof.
  intros Hg. unfold Stop, bind. rewrite Stop_range_run, Hg.
  unfold errgroup.Wait, emit, ret. cbn [fst snd]. autorewrite with world.
  by rewrite <- app_assoc.
Qed.

(** C8: [Stop] shuts every server down and writes its "server stopped"
    record, in the order of the servers, and then waits.  The tasks that
    return ([hist] before [Stop] waits, [sched] while it waits) being
    among those launched in [Start]: when every task launched has
    returned, [Stop] returns the first error that is not nil among what
    the tasks returned, in the order in which they returned, and nil when
    there is none, and no task is left in the group; while a task
    launched has not returned, [Stop] blocks. *)
Theorem Stop_waits_and_returns_first_error (app : TFTP) (launched : list Task)
  (hist sched : list (Task * option error)) (w : World) :
  errGroup app = Some (foldl errgroup.done (errgroup.mkGroup launched None) hist) →
  map fst (hist ++ sched) ⊆+ launched →
  trace (Stop app sched w).2 = trace w ++ flat_map stop_events (servers app) ++ [EvWait] ∧
  (launched ≡ₚ map fst (hist ++ sched) →
   (Stop app sched w).1.2 = Returns (first_error (hist ++ sched)) ∧
   ∃ g', errGroup (Stop app sched w).1.1 = Some g' ∧ errgroup.wg g' = []) ∧
  (¬ launched ≡ₚ map fst (hist ++ sched) → (Stop app sched w).1.2 = Blocks).
Proof.
  intros Hg Hsub. rewrite (Stop_run app _ sched w Hg). cbn [fst snd errGroup].
  rewrite <- foldl_app. autorewrite with world.
  destruct (foldl_done_outcome launched (hist ++ sched) Hsub) as [Herr Hwg].
  split_and!; [done | |].
  - intros Hp. apply Hwg in Hp. rewrite Hp, Herr. split; [done|]. by eexists.
  - intros Hn.
    destruct (errgroup.wg (foldl errgroup.done (errgroup.mkGroup launched None)
                             (hist ++ sched))); [|done].
    destruct Hn. by apply Hwg.
Qed.

Lemma Stop_waits_and_returns_first_error_witness :
  (Stop (mkTFTP [] [examples.server_a; examples.server_b] (Some examples.context)
           (Some (foldl errgroup.done
                    (errgroup.mkGroup [task_of examples.server_a; task_of examples.server_b]
                       None)
                    [])))
        [(task_of examples.server_b, Some examples.closed);
         (task_of examples.server_a, None)]
        examples.world).1.2
  = Returns (Some examples.closed) ∧
  (Stop (mkTFTP [] [examples.server_a; examples.server_b] (Some examples.context)
           (Some (foldl errgroup.done
                    (errgroup.mkGroup [task_of examples.server_a; task_of examples.server_b]
                       None)
                    [])))
        [(task_of examples.server_b, Some examples.closed)]
        examples.world).1.2
  = Blocks.
Proof.
  split.
  - apply (Stop_waits_and_returns_first_error
             (mkTFTP [] [examples.server_a; examples.server_b] (Some examples.context)
                (Some (foldl errgroup.done
                         (errgroup.mkGroup
                            [task_of examples.server_a; task_of examples.server_b] None)
                         [])))
             [task_of examples.server_a; task_of examples.server_b]
             []
             [(task_of examples.server_b, Some examples.closed);
              (task_of examples.server_a, None)]
             examples.world).
    + reflexivity.
    + apply submseteq_swap.
    + apply perm_swap.
  - apply (Stop_waits_and_returns_first_error
             (mkTFTP [] [examples.server_a; examples.server_b] (Some examples.context)
                (Some (foldl errgroup.done
                         (errgroup.mkGroup
                            [task_of examples.server_a; task_of examples.server_b] None)
                         [])))
             [task_of examples.server_a; task_of examples.server_b]
             []
             [(task_of examples.server_b, Some examples.closed)]
             examples.world).
    + reflexivity.
    + apply submseteq_cons. reflexivity.
    + intros H. apply Permutation_length in H. discriminate H.
Defined.

(** While a task of the group has not returned, [Stop] does not return. *)
Lemma Stop_blocks (app : TFTP) (g : errgroup.Group)
  (sched : list (Task * option error)) (w : World) :
  errGroup app = Some g →
  errgroup.wg (foldl errgroup.done g sched) ≠ [] →
  (Stop app sched w).1.2 = Blocks.
Proof.
  intros Hg Hwg. unfold Stop, bind. rewrite Stop_range_run, Hg.
  unfold errgroup.Wait, emit, ret. cbn [fst snd].
  by destruct (errgroup.wg (foldl errgroup.done g sched)).
Qed.

(** [Stop] before any [Start]: the group is nil. *)
Lemma Stop_without_Start (app : TFTP) (sched : list (Task * option error)) (w : World) :
  errGroup app = None → (Stop app sched w).1.2 = Panics.
Proof.
  intros Hg. unfold Stop, bind. by rewrite Stop_range_run, Hg.
Qed.

(** C10: when the listener of the server [s] cannot be bound, [Start]
    returns the error at once; the tasks launched for the servers before
    [s] are still in the group, not returned; [Start] has shut no server
    down; and a later [Stop] shuts them down. *)
Theorem Start_not_atomic (app : TFTP) (pre post : list tftpServer) (s : tftpServer)
  (r : ListenResult) (w : World) :
  servers app = pre ++ s :: post →
  listens_ok (net_listen w) (bound w) pre →
  net_listen w (bound w ++ map addr pre) (addr s) 0%N = r →
  r ≠ ListenPacketConn →
  (Start app w).1.2 = Some (listen_failure s r) ∧
  errGroup (Start app w).1.1 = Some (errgroup.mkGroup (map task_of pre) None) ∧
  trace (Start app w).2 = trace w ++ flat_map start_events pre ++ [EvListen (addr s) 0] ∧
  Forall (λ ev, is_shutdown ev = false) (flat_map start_events pre ++ [EvListen (addr s) 0]) ∧
  ∀ sched w', Forall (λ s', EvShutdown (name s') ∈ trace (Stop (Start app w).1.1 sched w').2) pre.
Proof.
  intros Hss Hok Hr Hne. unfold Start, bind, ret.
  rewrite Hss, (Start_range_fails pre s post _ w r) by done.
  cbn [fst snd errGroup errgroup.wg errgroup.err Datatypes.app]. autorewrite with world.
  split_and!; [done | done | done | |].
  - apply Forall_app. split; [|by repeat constructor].
    apply Forall_flat_map, Forall_forall. intros s' _. by repeat constructor.
  - intros sched w'. apply Forall_forall. intros s' Hs'.
    unfold Stop, bind. rewrite Stop_range_run. cbn [servers errGroup].
    unfold emit, ret. destruct (errgroup.Wait _ sched) as [g' o]. cbn [fst snd].
    autorewrite with world.
    rewrite !elem_of_app. left. right.
    apply list_elem_of_In, in_flat_map. exists s'. split.
    + apply list_elem_of_In. rewrite elem_of_app. by left.
    + by left.
Qed.

Lemma Start_not_atomic_witness :
  (Start (mkTFTP [] [examples.server_a; examples.server_b; examples.server_c]
            (Some examples.context) None) examples.world).1.2
  = Some (listen_failure examples.server_c
            (ListenError (SyscallError "bind"%string EADDRINUSE))) ∧
  errGroup (Start (mkTFTP [] [examples.server_a; examples.server_b; examples.server_c]
                     (Some examples.context) None) examples.world).1.1
  = Some (errgroup.mkGroup [task_of examples.server_a; task_of examples.server_b] None).
Proof.
  destruct (Start_not_atomic
              (mkTFTP [] [examples.server_a; examples.server_b; examples.server_c]
                 (Some examples.context) None)
              [examples.server_a; examples.server_b] [] examples.server_c
              (ListenError (SyscallError "bind"%string EADDRINUSE)) examples.world)
    as (H1 & H2 & _).
  - reflexivity.
  - cbn. split_and!; [reflexivity | reflexivity | exact I].
  - vm_compute. reflexivity.
  - discriminate.
  - split; [exact H1 | exact H2].
Defined.

(** When every listener can be bound, [Start] returns no error and the
    group holds one task for every server. *)
Lemma Start_launches_all (app : TFTP) (w : World) :
  listens_ok (net_listen w) (bound w) (servers app) →
  (Start app w).1 =
  (mkTFTP (Servers app) (servers app) (ctx app)
     (Some (errgroup.mkGroup (map task_of (servers app)) None)), None) ∧
  trace (Start app w).2 = trace w ++ flat_map start_events (servers app).
Proof.
  intros Hok. unfold Start, bind, ret. rewrite Start_range_ok by done.
  cbn [fst snd errgroup.wg errgroup.err Datatypes.app]. by autorewrite with world.
Qed.

End lifecycle_facts.

Section lifecycle_examples.
Import examples.

(** Two servers started and stopped; the task of [b] returns an error
    first, then the task of [a] returns nil: [Stop] returns the error. *)
Example started_then_stopped :
  let app := (Start (mkTFTP [] [server_a; server_b] (Some context) None) world).1.1 in
  (Stop app [(task_of server_b, Some closed); (task_of server_a, None)] world).1.2
  = Returns (Some closed) ∧
  (Stop app [(task_of server_a, None)] world).1.2 = Blocks.
Proof. cbn zeta. split; vm_compute; reflexivity. Qed.

End lifecycle_examples.

(** ** Which paths the sanitizer accepts *)

Section accept.
Import filepath segs.

Lemma prefix_nonsep_app a b Y :
  Forall nonsep a → a `prefix_of` (b ++ Separator :: Y) → a `prefix_of` b.
Proof.
  intros Ha. revert b. induction Ha as [|x a Hx Ha IH]; intros b Hp.
  { apply prefix_nil. }
  destruct b as [|y b]; cbn [app] in Hp.
  - apply prefix_cons_inv_1 in Hp. done.
  - pose proof (prefix_cons_inv_1 _ _ _ _ Hp) as ->.
    apply prefix_cons, IH. by apply prefix_cons_inv_2 in Hp.
Qed.

Lemma prefix_segment_app a b X Y :
  Forall nonsep a → Forall nonsep b →
  (a ++ Separator :: X) `prefix_of` (b ++ Separator :: Y) →
  a = b ∧ X `prefix_of` Y.
Proof.
  intros Ha. revert b. induction Ha as [|x a Hx Ha IH]; intros b Hb Hp.
  - destruct b as [|y b]; cbn [app] in Hp.
    + split; [done|]. by apply prefix_cons_inv_2 in Hp.
    + apply prefix_cons_inv_1 in Hp. apply Forall_cons in Hb as [Hy _]. by subst.
  - destruct b as [|y b]; cbn [app] in Hp.
    + apply prefix_cons_inv_1 in Hp. done.
    + pose proof (prefix_cons_inv_1 _ _ _ _ Hp) as ->.
      apply prefix_cons_inv_2 in Hp. apply Forall_cons in Hb as [_ Hb].
      destruct (IH b Hb Hp) as [-> ?]. done.
Qed.

Lemma prefix_sep_nonsep a X b :
  Forall nonsep b → ¬ (a ++ Separator :: X) `prefix_of` b.
Proof.
  intros Hb [k ->]. rewrite <- app_assoc in Hb. apply Forall_app in Hb as [_ Hb].
  cbn [app] in Hb. apply Forall_cons in Hb as [? _]. done.
Qed.

Lemma Join_cons2 a b l sep :
  strings.Join (a :: b :: l) sep = a ++ sep ++ strings.Join (b :: l) sep.
Proof. done. Qed.

Lemma Join_names_prefix A B :
  Forall is_name A → Forall is_name B →
  strings.Join A [Separator] `prefix_of` strings.Join B [Separator] ↔
  A = [] ∨ ∃ N l x M, A = N ++ [l] ∧ B = N ++ (l ++ x) :: M.
Proof.
  intros HA. revert B. induction HA as [|a A Ha HA IH]; intros B HB.
  { split; [by left|]. intros _. apply prefix_nil. }
  pose proof (is_name_nonsep a Ha) as Hsa.
  destruct A as [|a' A].
  - (* one name *)
    cbn [strings.Join]. split.
    + intros Hp. right. destruct B as [|b B].
      { cbn in Hp. apply prefix_nil_inv in Hp. by apply is_name_nonnil in Ha. }
      assert (a `prefix_of` b) as [x ->].
      { destruct B as [|b' B]; [done|]. rewrite Join_cons2 in Hp.
        by apply prefix_nonsep_app in Hp. }
      by exists [], a, x, B.
    + intros [?|(N & l & x & M & HN & ->)]; [done|].
      destruct N as [|n N]; [|by destruct N].
      injection HN as <-. cbn [app].
      destruct M as [|m M]; [by apply prefix_app_r|].
      rewrite Join_cons2, <- app_assoc. by apply prefix_app_r.
  - (* at least two names *)
    rewrite Join_cons2. cbn [app]. split.
    + intros Hp. right. destruct B as [|b B].
      { cbn in Hp. apply prefix_nil_inv in Hp. by destruct a. }
      apply Forall_cons in HB as [Hb HB].
      pose proof (is_name_nonsep b Hb) as Hsb.
      destruct B as [|b' B].
      { cbn [strings.Join] in Hp. by apply prefix_sep_nonsep in Hp. }
      rewrite Join_cons2 in Hp. cbn [app] in Hp.
      apply prefix_segment_app in Hp as [<- Hp]; [|done|done].
      apply IH in Hp as [?|(N & l & x & M & HN & HM)]; [done| |done].
      exists (a :: N), l, x, M. by rewrite HN, HM.
    + intros [?|(N & l & x & M & HN & ->)]; [done|].
      destruct N as [|n N]; [by destruct A|].
      injection HN as <- HN.
      assert (strings.Join (a' :: A) [Separator]
              `prefix_of` strings.Join (N ++ (l ++ x) :: M) [Separator]) as Hp.
      { apply IH.
        - apply Forall_cons in HB as [_ HB]. done.
        - right. by exists N, l, x, M. }
      cbn [app] in *.
      destruct (N ++ (l ++ x) :: M) as [|b B] eqn:HNM; [by destruct N|].
      rewrite Join_cons2. cbn [app].
      apply prefix_app, prefix_cons. done.
Qed.

End accept.

Section safePath_more.
Import filepath segs.

Lemma resolve_skip_empty a b st : resolve (a ++ [] :: b) st = resolve (a ++ b) st.
Proof. by rewrite !resolve_app. Qed.

(** The names of the path [safePath] returns. *)
Lemma safePath_path_names s filename w :
  IsAbs (root s) = true →
  ∃ B, Forall is_name B ∧ (safePath s filename w).1.1 = path_of B.
Proof.
  intros HR. rewrite safePath_abs_root by done. cbn [fst].
  apply IsAbs_cons in HR as [r ->]. cbn [app]. rewrite Clean_rooted.
  eexists. split; [|done]. apply Clean_rooted_names.
Qed.

(** X1: for an absolute root, the path [safePath] returns, accepted or
    not, is absolute and canonical: [Clean] leaves it as it is, and it is
    written out from names, with no empty, [.] or [..] segment. *)
Theorem safePath_returns_canonical (s : tftpServer) (filename : gostring) (w : World) :
  IsAbs (root s) = true →
  IsAbs (safePath s filename w).1.1 = true ∧
  Clean (safePath s filename w).1.1 = (safePath s filename w).1.1 ∧
  Forall is_name (names_of (safePath s filename w).1.1).
Proof.
  intros HR. destruct (safePath_path_names s filename w HR) as (B & HB & ->).
  split_and!.
  - apply IsAbs_path_of.
  - by apply Clean_path_of.
  - by rewrite names_of_path_of.
Qed.

Lemma safePath_returns_canonical_witness :
  IsAbs (safePath examples.server ("a/../../x/./y"%string : gostring) examples.world).1.1 = true.
Proof.
  apply (safePath_returns_canonical examples.server
           ("a/../../x/./y"%string : gostring) examples.world).
  reflexivity.
Defined.

(** For a canonical root: the names of the root and of the result. *)
Lemma safePath_canonical_root s filename w :
  IsAbs (root s) = true → Clean (root s) = root s →
  ∃ A B, Forall is_name A ∧ Forall is_name B ∧
    root s = path_of A ∧ names_of (root s) = A ∧
    (safePath s filename w).1.1 = path_of B ∧ names_of (safePath s filename w).1.1 = B ∧
    B = reverse (resolve (segments filename) (reverse A)) ∧
    ((safePath s filename w).1.2 = None ↔
       strings.Join A [Separator] `prefix_of` strings.Join B [Separator]) ∧
    ((safePath s filename w).1.2 ≠ None → (safePath s filename w).1.2 = Some unsafe_filename).
Proof.
  intros HR Hc. destruct (canonical_names (root s) HR Hc) as (A & HA & Heq).
  exists A, (reverse (resolve (segments filename) (reverse A))).
  assert (Forall is_name (reverse (resolve (segments filename) (reverse A)))) as HB.
  { apply Forall_reverse, resolve_names; [by apply Forall_reverse|apply segments_nonsep]. }
  rewrite safePath_abs_root by done. cbn [fst snd]. rewrite Heq.
  rewrite <- (Join_rooted (path_of A) filename) by apply IsAbs_path_of.
  rewrite Join_names by done. rewrite !names_of_path_of by done.
  split_and!; try done.
  - destruct (strings.HasPrefix _ _) eqn:Hp.
    + split; [|done]. intros _. apply HasPrefix_prefix in Hp.
      unfold path_of in Hp. by apply prefix_cons_inv_2 in Hp.
    + split; [done|]. intros Hj. exfalso.
      assert (strings.HasPrefix
                (path_of (reverse (resolve (segments filename) (reverse A))))
                (path_of A) = true) as Hp'.
      { apply HasPrefix_prefix. unfold path_of. by apply prefix_cons. }
      congruence.
  - by destruct (strings.HasPrefix _ _).
Qed.

(** X2: for an absolute canonical root, [safePath] accepts a file name
    exactly when the path it resolves to is the root or lies below it, or
    is, or lies below, a sibling of the root whose name is the name of the
    root with more bytes after it. *)
Theorem safePath_accepts_iff_names (s : tftpServer) (filename : gostring) (w : World) :
  IsAbs (root s) = true → Clean (root s) = root s →
  (safePath s filename w).1.2 = None ↔
  HasPathPrefix (safePath s filename w).1.1 (root s) ∨
  ∃ N l x M, x ≠ [] ∧
    names_of (root s) = N ++ [l] ∧
    names_of (safePath s filename w).1.1 = N ++ (l ++ x) :: M.
Proof.
  intros HR Hc.
  destruct (safePath_canonical_root s filename w HR Hc)
    as (A & B & HA & HB & _ & HnA & _ & HnB & _ & Hiff & _).
  rewrite Hiff, Join_names_prefix by done.
  unfold HasPathPrefix. rewrite HnA, HnB. split.
  - intros [->|(N & l & x & M & -> & ->)].
    { left. apply prefix_nil. }
    destruct (decide (x = [])) as [->|Hx].
    + left. rewrite app_nil_r. exists M. by rewrite <- app_assoc.
    + right. by exists N, l, x, M.
  - intros [[M ->]|(N & l & x & M & _ & -> & ->)].
    + destruct A as [|a A _] using rev_ind; [by left|]. right.
      exists A, a, [], M. by rewrite app_nil_r, <- app_assoc.
    + right. by exists N, l, x, M.
Qed.


Lemma safePath_accepts_iff_names_witness :
  (safePath examples.server ("../tftp-other/x"%string : gostring) examples.world).1.2 = None ↔
  HasPathPrefix (safePath examples.server ("../tftp-other/x"%string : gostring)
                   examples.world).1.1 (root examples.server) ∨
  ∃ N l x M, x ≠ [] ∧
    names_of (root examples.server) = N ++ [l] ∧
    names_of (safePath examples.server ("../tftp-other/x"%string : gostring)
                examples.world).1.1 = N ++ (l ++ x) :: M.
Proof.
  apply (safePath_accepts_iff_names examples.server
           ("../tftp-other/x"%string : gostring) examples.world); reflexivity.
Defined.

(** X3: for an absolute canonical root, a file name that resolves to a
    proper ancestor of the root is rejected with [unsafe_filename]. *)
Theorem safePath_rejects_ancestors (s : tftpServer) (filename : gostring) (w : World) :
  IsAbs (root s) = true → Clean (root s) = root s →
  names_of (safePath s filename w).1.1 `prefix_of` names_of (root s) →
  (safePath s filename w).1.1 ≠ root s →
  (safePath s filename w).1.2 = Some unsafe_filename.
Proof.
  intros HR Hc Hpre Hne.
  destruct (safePath_canonical_root s filename w HR Hc)
    as (A & B & HA & HB & HrA & HnA & HcB & HnB & _ & Hiff & Hunsafe).
  apply Hunsafe. intros Hacc. apply Hiff in Hacc.
  rewrite HnA, HnB in Hpre. apply Hne. rewrite HrA, HcB. f_equal.
  apply Join_names_prefix in Hacc as [->|(N & l & x & M & -> & ->)]; [| |done|done].
  { by apply prefix_nil_inv in Hpre. }
  destruct Hpre as [K HK]. rewrite <- app_assoc in HK. cbn [app] in HK.
  apply app_inv_head in HK. destruct M as [|m M]; cbn [app] in HK.
  - destruct K; [|by destruct K]. cbn in HK. injection HK as HK.
    assert (x = []) as ->.
    { apply (app_inv_head l). by rewrite app_nil_r. }
    by rewrite app_nil_r.
  - injection HK as _ HK. by destruct M.
Qed.

Lemma safePath_rejects_ancestors_witness :
  (safePath examples.server (".."%string : gostring) examples.world).1.2
  = Some unsafe_filename.
Proof.
  apply (safePath_rejects_ancestors examples.server (".."%string : gostring)
           examples.world).
  - reflexivity.
  - reflexivity.
  - apply (bool_decide_eq_true_1 _). vm_compute. reflexivity.
  - rewrite safePath_abs_root by reflexivity. vm_compute. discriminate.
Defined.

(** X4: for an absolute root, a separator in front of the file name
    changes neither the path nor the verdict of [safePath]: an absolute
    file name is taken relative to the root. *)
Theorem safePath_ignores_leading_slash (s : tftpServer) (filename : gostring) (w : World) :
  IsAbs (root s) = true →
  (safePath s (Separator :: filename) w).1 = (safePath s filename w).1.
Proof.
  intros HR. rewrite !safePath_abs_root by done. cbn [fst].
  assert (Clean (root s ++ Separator :: Separator :: filename)
          = Clean (root s ++ Separator :: filename)) as ->; [|done].
  apply IsAbs_cons in HR as [r ->]. cbn [app]. rewrite !Clean_rooted.
  rewrite !segments_app_sep. cbn [segments].
  change (IsPathSeparator Separator) with true. cbn iota.
  by rewrite resolve_skip_empty.
Qed.

Lemma safePath_ignores_leading_slash_witness :
  (safePath examples.server (Separator :: ("etc/passwd"%string : gostring)) examples.world).1
  = (safePath examples.server ("etc/passwd"%string : gostring) examples.world).1.
Proof.
  apply (safePath_ignores_leading_slash examples.server
           ("etc/passwd"%string : gostring) examples.world).
  reflexivity.
Defined.

(** X5: for an absolute canonical root, a file name whose segments are
    all empty or [.] (the empty name, [.], [/], [./.]) resolves to the root
    itself and is accepted. *)
Theorem safePath_empty_filename (s : tftpServer) (filename : gostring) (w : World) :
  IsAbs (root s) = true → Clean (root s) = root s →
  Forall (λ seg, seg = [] ∨ seg = dot) (segments filename) →
  (safePath s filename w).1 = (root s, None).
Proof.
  intros HR Hc Hsegs.
  destruct (canonical_names (root s) HR Hc) as (A & HA & Heq).
  rewrite safePath_abs_root by done. cbn zeta. rewrite Heq.
  rewrite Clean_root_filename; [|done|].
  2:{ intros Hin. rewrite Forall_forall in Hsegs. by destruct (Hsegs _ Hin). }
  assert (filter is_name (segments filename) = []) as ->.
  { induction Hsegs as [|seg segs Hseg _ IH]; [done|].
    rewrite filter_cons_False; [done|]. intros (H1 & H2 & _). by destruct Hseg. }
  rewrite app_nil_r. rewrite (proj2 (HasPrefix_prefix _ _)); done.
Qed.

Lemma safePath_empty_filename_witness :
  (safePath examples.server [] examples.world).1 = (root examples.server, None).
Proof.
  apply (safePath_empty_filename examples.server [] examples.world).
  - reflexivity.
  - reflexivity.
  - vm_compute. repeat constructor.
Defined.

(** X6: a server whose root is [/] accepts every file name. *)
Theorem safePath_root_slash_accepts_all (s : tftpServer) (filename : gostring) (w : World) :
  root s = [Separator] →
  (safePath s filename w).1.2 = None.
Proof.
  intros HR.
  assert (IsAbs (root s) = true) as Habs by by rewrite HR.
  destruct (safePath_path_names s filename w Habs) as (B & _ & HB).
  rewrite safePath_abs_root in HB |- * by done. cbn [fst snd] in *.
  rewrite HB, HR. by rewrite (proj2 (HasPrefix_prefix _ _)) by by eexists.
Qed.

End safePath_more.

(** ** The handlers, outcome by outcome *)

Section handler_more.
Import filepath segs.

Lemma read_body_cases s filename rf w :
  read_body s filename rf w =
  let c := (safePath s filename w).1.1 in
  let dbg := EvLog (sanitized_entry s filename c) in
  match (safePath s filename w).1.2 with
  | Some e =>
      ((0%Z, Some e), set_trace (trace w ++ [dbg; EvLog (error_entry s filename e)]) w)
  | None =>
      match open_fault w c with
      | Some en =>
          ((0%Z, Some (PathError "open"%string c en)),
           set_trace (trace w ++ [dbg; EvOpen c os.O_RDONLY;
                                  EvLog (error_entry s filename (PathError "open"%string c en))]) w)
      | None =>
          match files w !! c with
          | None =>
              ((0%Z, Some (PathError "open"%string c ENOENT)),
               set_trace (trace w ++ [dbg; EvOpen c os.O_RDONLY;
                                      EvLog (error_entry s filename
                                               (PathError "open"%string c ENOENT))]) w)
          | Some content =>
              (((rf_send rf content).1.1, (rf_send rf content).1.2),
               set_trace (trace w ++ [dbg; EvOpen c os.O_RDONLY;
                                      EvReadFrom c (rf_send rf content).1.1] ++
                          match (rf_send rf content).1.2 with
                          | Some e => [EvLog (error_entry s filename e)]
                          | None => []
                          end)
                 (set_now (now w + (rf_send rf content).2)%Z w))
          end
      end
  end.
Proof.
  unfold read_body, bind. rewrite safePath_run.
  destruct (Abs (getwd w) (Join [root s; filename])) as [c e0]. cbn [fst snd].
  destruct (bool_decide (is_Some e0) || negb (strings.HasPrefix c (root s))).
  { unfold error_entry. step_M. by rewrite <- !app_assoc. }
  unfold os.Open, os.OpenFile. step_M.
  destruct (open_fault w c) as [e|].
  { unfold error_entry. step_M. by rewrite <- !app_assoc. }
  destruct (files w !! c) as [content|] eqn:Hc.
  2:{ change (os.has_flag os.O_RDONLY os.O_CREATE) with false. cbn iota.
      unfold error_entry. step_M. by rewrite <- !app_assoc. }
  change (os.has_flag os.O_RDONLY os.O_CREATE && os.has_flag os.O_RDONLY os.O_EXCL)
    with false.
  change (os.has_flag os.O_RDONLY os.O_TRUNC) with false. cbn iota.
  unfold ReadFrom. autorewrite with world. rewrite Hc.
  change (default [] (Some content)) with content.
  destruct (rf_send rf content) as [[n err] dt]. cbn [fst snd].
  destruct err as [e|]; unfold error_entry; step_M; rewrite <- ?app_assoc; done.
Qed.

Lemma write_body_cases s filename wt w :
  write_body s filename wt w =
  let c := (safePath s filename w).1.1 in
  let dbg := EvLog (sanitized_entry s filename c) in
  match (safePath s filename w).1.2 with
  | Some e =>
      ((0%Z, Some e), set_trace (trace w ++ [dbg; EvLog (error_entry s filename e)]) w)
  | None =>
      match open_fault w c with
      | Some en =>
          ((0%Z, Some (PathError "open"%string c en)),
           set_trace (trace w ++ [dbg; EvOpen c write_flags;
                                  EvLog (error_entry s filename (PathError "open"%string c en))]) w)
      | None =>
          match files w !! c with
          | Some _ =>
              ((0%Z, Some (PathError "open"%string c EEXIST)),
               set_trace (trace w ++ [dbg; EvOpen c write_flags;
                                      EvLog (error_entry s filename
                                               (PathError "open"%string c EEXIST))]) w)
          | None =>
              ((Z.of_nat (length (wt_data wt)), wt_err wt),
               set_trace (trace w ++ [dbg; EvOpen c write_flags;
                                      EvWriteTo c (Z.of_nat (length (wt_data wt)))] ++
                          match wt_err wt with
                          | Some e => [EvLog (error_entry s filename e)]
                          | None => []
                          end)
                 (set_now (now w + wt_elapsed wt)%Z
                    (set_files (<[c := wt_data wt]> (files w)) w)))
          end
      end
  end.
Proof.
  unfold write_body, bind, write_flags. rewrite safePath_run.
  destruct (Abs (getwd w) (Join [root s; filename])) as [c e0]. cbn [fst snd].
  destruct (bool_decide (is_Some e0) || negb (strings.HasPrefix c (root s))).
  { unfold error_entry. step_M. by rewrite <- !app_assoc. }
  unfold os.OpenFile. step_M.
  destruct (open_fault w c) as [e|].
  { unfold error_entry. step_M. by rewrite <- !app_assoc. }
  destruct (files w !! c) as [content|] eqn:Hc.
  { rewrite write_flags_exclusive. unfold error_entry. step_M. by rewrite <- !app_assoc. }
  change (os.has_flag (Z.lor os.O_WRONLY (Z.lor os.O_CREATE os.O_EXCL)) os.O_CREATE)
    with true. cbn iota.
  unfold WriteTo. autorewrite with world.
  rewrite lookup_insert_eq.
  change (default [] (Some (@nil ascii))) with (@nil ascii).
  rewrite drop_nil, app_nil_r, insert_insert_eq.
  destruct (wt_err wt) as [e|]; unfold error_entry; step_M; rewrite <- ?app_assoc; done.
Qed.


Lemma safePath_accepted_prefix s filename w :
  (safePath s filename w).1.2 = None →
  strings.HasPrefix (safePath s filename w).1.1 (root s) = true.
Proof.
  rewrite safePath_run. cbn [fst snd].
  destruct (bool_decide _); [done|]. cbn [orb].
  by destruct (strings.HasPrefix _ _).
Qed.

Lemma safePath_verdict s filename w :
  (safePath s filename w).1.2 = None ∨
  (safePath s filename w).1.2 = Some unsafe_filename.
Proof.
  rewrite safePath_run. cbn [fst snd].
  destruct (bool_decide _ || negb _); [by right|by left].
Qed.

Lemma safePath_same_getwd s filename w1 w2 :
  getwd w1 = getwd w2 → (safePath s filename w1).1 = (safePath s filename w2).1.
Proof. intros H. rewrite !safePath_run. cbn [fst]. by rewrite H. Qed.

Lemma safePath_pair s filename w p v :
  (safePath s filename w).1 = (p, v) →
  (safePath s filename w).1.1 = p ∧ (safePath s filename w).1.2 = v.
Proof. by intros ->. Qed.

Lemma run_deferred_result al remote method key filename start n result w1 :
  (run_deferred al remote method key filename start ((n, result), w1)).1 = result ∧
  files (run_deferred al remote method key filename start ((n, result), w1)).2 = files w1 ∧
  ∃ rec, trace (run_deferred al remote method key filename start ((n, result), w1)).2
         = trace w1 ++ rec ∧ opened rec = [] ∧ filter is_error rec = [] ∧
           Forall (λ ev, is_transfer ev = false) rec.
Proof.
  unfold run_deferred. destruct al as [al|]; cbn [fst snd]; autorewrite with world.
  - split_and!; [done|done|]. eexists. split_and!; [done|done|done|]. by repeat constructor.
  - split_and!; [done|done|]. exists []. by rewrite app_nil_r.
Qed.

Ltac deferred :=
  match goal with
  | |- context [run_deferred ?a ?b ?c ?d ?e ?f (?n, ?r, ?w1)] =>
      let Hres := fresh "Hres" in
      let Hfiles := fresh "Hfiles" in
      let rec_ := fresh "rec" in
      let Htr := fresh "Htr" in
      let Hop := fresh "Hop" in
      let Herr := fresh "Herr" in
      let Htrans := fresh "Htrans" in
      destruct (run_deferred_result a b c d e f n r w1)
        as (Hres & Hfiles & rec_ & Htr & Hop & Herr & Htrans);
      rewrite ?Hres, ?Hfiles, ?Htr; autorewrite with world
  end.

Ltac read_cases s filename rf w :=
  rewrite ?readHandler_unfold, ?read_body_cases; cbn zeta;
  let Hpre := fresh "Hpre" in
  pose proof (safePath_accepted_prefix s filename w) as Hpre;
  destruct ((safePath s filename w).1.2) as [?e|];
  [ | specialize (Hpre eq_refl);
      destruct (open_fault w (safePath s filename w).1.1) as [?en|];
      [ | destruct (files w !! (safePath s filename w).1.1) as [?content|] eqn:?Hfile;
          [ destruct (rf_send rf _) as [[?n [?e|]] ?dt] eqn:?Hsend | ] ] ];
  cbn [fst snd]; deferred.

Ltac write_cases s filename wt w :=
  rewrite ?writeHandler_unfold, ?write_body_cases; cbn zeta;
  let Hpre := fresh "Hpre" in
  pose proof (safePath_accepted_prefix s filename w) as Hpre;
  destruct ((safePath s filename w).1.2) as [?e|];
  [ | specialize (Hpre eq_refl);
      destruct (open_fault w (safePath s filename w).1.1) as [?en|];
      [ | destruct (files w !! (safePath s filename w).1.1) as [?content|] eqn:?Hfile;
          [ | destruct (wt_err wt) as [?e|] eqn:?Herrwt ] ] ];
  cbn [fst snd]; deferred.

Ltac opened_events :=
  eexists; rewrite <- ?app_assoc; (split; [done|]);
  unfold opened in *; rewrite ?omap_app;
  repeat match goal with H : omap _ _ = [] |- _ => rewrite H end;
  cbn; (split; [lia | by repeat constructor]).

(** X7: each handler opens at most one file, and only at a path whose
    text begins with the text of the root. *)
Theorem handlers_open_below_root (s : tftpServer) (filename : gostring)
  (rf : ReaderFrom) (wt : WriterTo) (w : World) :
  (∃ added,
     trace (readHandler s filename rf w).2 = trace w ++ added ∧
     length (opened added) ≤ 1 ∧
     Forall (λ p, strings.HasPrefix p (root s) = true) (opened added)) ∧
  (∃ added,
     trace (writeHandler s filename wt w).2 = trace w ++ added ∧
     length (opened added) ≤ 1 ∧
     Forall (λ p, strings.HasPrefix p (root s) = true) (opened added)).
Proof.
  split.
  - read_cases s filename rf w; opened_events.
  - write_cases s filename wt w; opened_events.
Qed.

(** X8: a download changes no file, whatever its outcome. *)
Theorem readHandler_keeps_files (s : tftpServer) (filename : gostring)
  (rf : ReaderFrom) (w : World) :
  files (readHandler s filename rf w).2 = files w.
Proof. read_cases s filename rf w; done. Qed.

(** X9: an upload changes no file other than the one at the path
    [safePath] returns, whatever its outcome. *)
Theorem writeHandler_keeps_other_files (s : tftpServer) (filename : gostring)
  (wt : WriterTo) (w : World) (q : gostring) :
  q ≠ (safePath s filename w).1.1 →
  files (writeHandler s filename wt w).2 !! q = files w !! q.
Proof.
  intros Hq. write_cases s filename wt w; try done; by rewrite lookup_insert_ne.
Qed.

(** X10: [readHandler] returns no error exactly when [safePath] accepts
    the file name, the file at the resolved path can be opened and exists,
    and the transfer of its content reports no error. *)
Theorem readHandler_succeeds_iff (s : tftpServer) (filename : gostring)
  (rf : ReaderFrom) (w : World) :
  (readHandler s filename rf w).1 = None ↔
  ∃ p content,
    (safePath s filename w).1 = (p, None) ∧
    open_fault w p = None ∧
    files w !! p = Some content ∧
    (rf_send rf content).1.2 = None.
Proof.
  destruct (safePath s filename w) as [[p v] w0] eqn:Hsp.
  assert ((safePath s filename w).1.1 = p) as Hp by by rewrite Hsp.
  assert ((safePath s filename w).1.2 = v) as Hv by by rewrite Hsp.
  cbn [fst].
  rewrite readHandler_unfold, read_body_cases. cbn zeta. rewrite Hp, Hv.
  destruct v as [e|].
  { deferred. split; [done|]. by intros (? & ? & [= _ ?] & _). }
  destruct (open_fault w p) as [en|] eqn:Hfault.
  { deferred. split; [done|]. intros (? & ? & [= <-] & ? & _). congruence. }
  destruct (files w !! p) as [content|] eqn:Hfile.
  2:{ deferred. split; [done|]. intros (? & ? & [= <-] & _ & ? & _). congruence. }
  deferred. split.
  - intros Hr. by exists p, content.
  - intros (? & ? & [= <-] & _ & Hf & Hs). rewrite Hfile in Hf. by injection Hf as <-.
Qed.


Lemma writeHandler_succeeds_iff_aux (s : tftpServer) (filename : gostring)
  (wt : WriterTo) (w : World) :
  ((writeHandler s filename wt w).1 = None ↔
   ∃ p, (safePath s filename w).1 = (p, None) ∧
        open_fault w p = None ∧ files w !! p = None ∧ wt_err wt = None) ∧
  ((writeHandler s filename wt w).1 = None →
   files (writeHandler s filename wt w).2
   = <[(safePath s filename w).1.1 := wt_data wt]> (files w)).
Proof.
  destruct (safePath s filename w) as [[p v] w0] eqn:Hsp.
  assert ((safePath s filename w).1.1 = p) as Hp by by rewrite Hsp.
  assert ((safePath s filename w).1.2 = v) as Hv by by rewrite Hsp.
  cbn [fst].
  rewrite writeHandler_unfold, write_body_cases. cbn zeta. rewrite Hp, Hv.
  destruct v as [e|].
  { deferred. split; [|done]. split; [done|]. by intros (? & [= _ ?] & _). }
  destruct (open_fault w p) as [en|] eqn:Hfault.
  { deferred. split; [|done]. split; [done|]. intros (? & [= <-] & ? & _). congruence. }
  destruct (files w !! p) as [content|] eqn:Hfile.
  { deferred. split; [|done]. split; [done|]. intros (? & [= <-] & _ & ? & _). congruence. }
  deferred. split; [|done]. split.
  - intros Hr. by exists p.
  - by intros (? & [= <-] & _ & _ & ?).
Qed.

(** X11: [writeHandler] returns no error exactly when [safePath] accepts
    the file name, the resolved path can be opened and names no file yet,
    and the transfer reports no error; the files are then the old ones
    with the data received at the resolved path. *)
Theorem writeHandler_succeeds_iff (s : tftpServer) (filename : gostring)
  (wt : WriterTo) (w : World) :
  ((writeHandler s filename wt w).1 = None ↔
   ∃ p, (safePath s filename w).1 = (p, None) ∧
        open_fault w p = None ∧ files w !! p = None ∧ wt_err wt = None) ∧
  ((writeHandler s filename wt w).1 = None →
   files (writeHandler s filename wt w).2
   = <[(safePath s filename w).1.1 := wt_data wt]> (files w)).
Proof. apply writeHandler_succeeds_iff_aux. Qed.

(** X12: when the transfer of an upload fails after the file has been
    created, [writeHandler] returns the error of the transfer and leaves
    the file with the data received so far: it does not remove it. *)
Theorem writeHandler_failed_transfer_leaves_file (s : tftpServer) (filename : gostring)
  (wt : WriterTo) (w : World) (p : gostring) (e : error) :
  (safePath s filename w).1 = (p, None) →
  open_fault w p = None →
  files w !! p = None →
  wt_err wt = Some e →
  (writeHandler s filename wt w).1 = Some e ∧
  files (writeHandler s filename wt w).2 = <[p := wt_data wt]> (files w).
Proof.
  intros [Hp Hv]%safePath_pair Hfault Hfile Herr.
  rewrite writeHandler_unfold, write_body_cases. cbn zeta.
  rewrite Hp, Hv, Hfault, Hfile, Herr. deferred. done.
Qed.

(** X13: a download of a file that does not exist returns the error of
    [os.Open] for the resolved path, and no transfer is started. *)
Theorem readHandler_missing_file (s : tftpServer) (filename : gostring)
  (rf : ReaderFrom) (w : World) (p : gostring) :
  (safePath s filename w).1 = (p, None) →
  open_fault w p = None →
  files w !! p = None →
  (readHandler s filename rf w).1 = Some (PathError "open"%string p ENOENT) ∧
  ∃ added,
    trace (readHandler s filename rf w).2 = trace w ++ added ∧
    Forall (λ ev, is_transfer ev = false) added.
Proof.
  intros [Hp Hv]%safePath_pair Hfault Hfile.
  rewrite readHandler_unfold, read_body_cases. cbn zeta.
  rewrite Hp, Hv, Hfault, Hfile. deferred. split; [done|].
  eexists. rewrite <- app_assoc. split; [done|].
  apply Forall_app. split; [by repeat constructor|done].
Qed.

(** X14: when [safePath] rejects the file name, both handlers return
    [unsafe_filename], open no file, and an upload leaves the files as
    they were. *)
Theorem handlers_reject_before_opening (s : tftpServer) (filename : gostring)
  (rf : ReaderFrom) (wt : WriterTo) (w : World) :
  (safePath s filename w).1.2 ≠ None →
  (readHandler s filename rf w).1 = Some unsafe_filename ∧
  (writeHandler s filename wt w).1 = Some unsafe_filename ∧
  files (writeHandler s filename wt w).2 = files w ∧
  (∃ added, trace (readHandler s filename rf w).2 = trace w ++ added ∧ opened added = []) ∧
  (∃ added, trace (writeHandler s filename wt w).2 = trace w ++ added ∧ opened added = []).
Proof.
  intros Hrej.
  assert ((safePath s filename w).1.2 = Some unsafe_filename) as Hv.
  { destruct (safePath_verdict s filename w) as [H|H]; [done|exact H]. }
  rewrite readHandler_unfold, writeHandler_unfold, read_body_cases, write_body_cases.
  cbn zeta. rewrite Hv.
  destruct (run_deferred_result (accessLog s) (rf_remote rf) "GET"%string
              "bytes_written"%string filename (now w) 0%Z (Some unsafe_filename)
              (set_trace (trace w ++ [EvLog (sanitized_entry s filename
                                               (safePath s filename w).1.1);
                                      EvLog (error_entry s filename unsafe_filename)]) w))
    as (-> & _ & rec1 & -> & Hop1 & _).
  destruct (run_deferred_result (accessLog s) (wt_remote wt) "PUT"%string
              "bytes_read"%string filename (now w) 0%Z (Some unsafe_filename)
              (set_trace (trace w ++ [EvLog (sanitized_entry s filename
                                               (safePath s filename w).1.1);
                                      EvLog (error_entry s filename unsafe_filename)]) w))
    as (-> & -> & rec2 & -> & Hop2 & _).
  autorewrite with world. split_and!; [done|done|done| |].
  - eexists. rewrite <- app_assoc. split; [done|].
    unfold opened in *. by rewrite omap_app, Hop1.
  - eexists. rewrite <- app_assoc. split; [done|].
    unfold opened in *. by rewrite omap_app, Hop2.
Qed.


Lemma writeHandler_env s filename wt w :
  getwd (writeHandler s filename wt w).2 = getwd w ∧
  open_fault (writeHandler s filename wt w).2 = open_fault w.
Proof.
  rewrite writeHandler_unfold, write_body_cases. cbn zeta.
  unfold run_deferred.
  destruct ((safePath s filename w).1.2),
    (open_fault w (safePath s filename w).1.1),
    (files w !! (safePath s filename w).1.1), (accessLog s); done.
Qed.

(** X15: after an upload that returned no error, a download of the same
    file name from the same server is handed the data uploaded, from the
    path the upload was resolved to, and returns what the transfer
    reports. *)
Theorem upload_then_download (s : tftpServer) (filename : gostring)
  (wt : WriterTo) (rf : ReaderFrom) (w : World) :
  (writeHandler s filename wt w).1 = None →
  (readHandler s filename rf (writeHandler s filename wt w).2).1
  = (rf_send rf (wt_data wt)).1.2 ∧
  ∃ added,
    trace (readHandler s filename rf (writeHandler s filename wt w).2).2
    = trace (writeHandler s filename wt w).2 ++ added ∧
    EvReadFrom (safePath s filename w).1.1 (rf_send rf (wt_data wt)).1.1 ∈ added.
Proof.
  intros Hok.
  destruct (writeHandler_succeeds_iff_aux s filename wt w) as [Hiff Hfiles].
  destruct (proj1 Hiff Hok) as (p & Hsp & Hfault & _ & _).
  specialize (Hfiles Hok).
  destruct (writeHandler_env s filename wt w) as [Hwd Hof].
  set (w' := (writeHandler s filename wt w).2) in *.
  pose proof (safePath_same_getwd s filename w' w Hwd) as Hsame.
  rewrite Hsp in Hsame. apply safePath_pair in Hsame as [Hp Hv].
  apply safePath_pair in Hsp as [Hp0 _].
  rewrite readHandler_unfold, read_body_cases. cbn zeta.
  rewrite Hp, Hv, Hof, Hfault, Hfiles, Hp0, lookup_insert_eq.
  deferred. split; [done|].
  eexists. rewrite <- app_assoc. split; [done|].
  rewrite !elem_of_app. left. left.
  apply list_elem_of_In. cbn. auto.
Qed.


Ltac error_events :=
  eexists; rewrite <- ?app_assoc; (split; [done|]);
  rewrite ?filter_app;
  repeat match goal with H : filter _ _ = [] |- _ => rewrite H end;
  by rewrite ?app_nil_r.

(** X16: a handler writes an error record exactly when it returns an
    error: one record, on the logger of the server, with the text of the
    error returned and the file name as requested. *)
Theorem handlers_log_returned_error (s : tftpServer) (filename : gostring)
  (rf : ReaderFrom) (wt : WriterTo) (w : World) :
  (∃ added,
     trace (readHandler s filename rf w).2 = trace w ++ added ∧
     filter is_error added =
       match (readHandler s filename rf w).1 with
       | Some e => [EvLog (error_entry s filename e)]
       | None => []
       end) ∧
  (∃ added,
     trace (writeHandler s filename wt w).2 = trace w ++ added ∧
     filter is_error added =
       match (writeHandler s filename wt w).1 with
       | Some e => [EvLog (error_entry s filename e)]
       | None => []
       end).
Proof.
  split.
  - read_cases s filename rf w; error_events.
  - write_cases s filename wt w; error_events.
Qed.

(** X17: on every path through a handler the access-log record, when the
    server has an access logger, is the last event and the only record at
    the level Info; it carries the remote address, the method, the file
    name as requested, the bytes transferred and the time the handler
    took. *)
Theorem handlers_write_one_access_record (s : tftpServer) (filename : gostring)
  (rf : ReaderFrom) (wt : WriterTo) (w : World) :
  (∃ added,
     Forall (λ ev, is_info ev = false) added ∧
     trace (readHandler s filename rf w).2 =
     trace w ++ added ++
     match accessLog s with
     | Some al =>
         [EvLog (access_entry al (rf_remote rf) "GET"%string "bytes_written"%string
                   filename (transferred added)
                   (now (readHandler s filename rf w).2 - now w))]
     | None => []
     end) ∧
  (∃ added,
     Forall (λ ev, is_info ev = false) added ∧
     trace (writeHandler s filename wt w).2 =
     trace w ++ added ++
     match accessLog s with
     | Some al =>
         [EvLog (access_entry al (wt_remote wt) "PUT"%string "bytes_read"%string
                   filename (transferred added)
                   (now (writeHandler s filename wt w).2 - now w))]
     | None => []
     end).
Proof.
  split; [apply readHandler_access_log | apply writeHandler_access_log].
Qed.

End handler_more.

(** ** Provisioning, entry by entry *)

Section provision_more.
Import filepath segs.
Variable parse : gostring → gostring → N → NetworkAddress * option error.

Lemma Provision_range_fails c pre e post acc w :
  Forall (entry_ok parse w) pre → ¬ entry_ok parse w e →
  Provision_range parse c (pre ++ e :: post) acc w
  = ((acc ++ map (instance_of parse c w) pre, Some (entry_error parse w e)), w).
Proof.
  intros Hpre Hbad. revert acc.
  induction Hpre as [|[nm srv] pre (Habs & Hparse & Hudp) Hpre IH]; intros acc.
  - cbn [app map]. rewrite app_nil_r. destruct e as [nm srv].
    rewrite Provision_range_cons. unfold entry_error, entry_ok, parsed in *. cbn [fst snd] in *.
    destruct (Abs (getwd w) (Root srv)) as [rt [err|]]; [done|].
    destruct (parse (Listen srv) udp 69) as [a [err|]]; [done|]. cbn [fst snd] in *.
    destruct (bool_decide (Network a = udp)) eqn:Hu; [|done].
    apply bool_decide_eq_true in Hu. tauto.
  - cbn [app map]. rewrite Provision_range_cons.
    unfold parsed in *. cbn [fst snd] in *.
    destruct (Abs (getwd w) (Root srv)) as [rt [err|]] eqn:HA; [done|].
    destruct (parse (Listen srv) udp 69) as [a [err|]] eqn:HP; [done|]. cbn [fst snd] in *.
    rewrite bool_decide_eq_true_2 by done. cbn [negb].
    rewrite IH, <- app_assoc. cbn [app].
    unfold instance_of, parsed. cbn [fst snd]. by rewrite HA, HP.
Qed.

(** X18: [Provision] stops at the first entry that fails a check: it
    returns the error of that check, and the servers made for the entries
    before it stay in the app. *)
Theorem Provision_stops_at_first_bad_entry (app : TFTP) (c : Context) (w : World)
  (pre post : list (gostring * Server)) (e : gostring * Server) :
  Servers app = pre ++ e :: post →
  Forall (entry_ok parse w) pre → ¬ entry_ok parse w e →
  (Provision parse app c w).1.2 = Some (entry_error parse w e) ∧
  servers (Provision parse app c w).1.1 = servers app ++ map (instance_of parse c w) pre.
Proof.
  intros HS Hpre Hbad. unfold Provision, bind, ret.
  rewrite HS, Provision_range_fails by done. done.
Qed.

(** X19: when the working directory, if it can be read, is absolute, the
    root of every server a successful [Provision] adds is absolute and
    canonical. *)
Theorem Provision_roots_canonical (app : TFTP) (c : Context) (w : World) :
  ((getwd w).2 = None → IsAbs (getwd w).1 = true) →
  (Provision parse app c w).1.2 = None →
  Forall canonical_root (servers app) →
  Forall canonical_root (servers (Provision parse app c w).1.1).
Proof.
  intros Hwd Hok Hold.
  destruct (Provision_spec parse app c w) as (_ & Hiff & Hacc).
  rewrite (Hacc Hok). apply Forall_app. split; [done|].
  apply Forall_fmap, Forall_forall. intros e He.
  apply (instance_of_root parse c w e Hwd).
  apply Hiff in Hok. rewrite Forall_forall in Hok. by apply Hok.
Qed.

(** X20: [Provision] does not read the field [Logs]: two configurations
    that differ in this field only give the same error and the same
    servers. *)
Theorem Provision_ignores_Logs (app1 app2 : TFTP) (c : Context) (w : World) :
  Forall2 same_but_Logs (Servers app1) (Servers app2) →
  servers app1 = servers app2 →
  (Provision parse app1 c w).1.2 = (Provision parse app2 c w).1.2 ∧
  servers (Provision parse app1 c w).1.1 = servers (Provision parse app2 c w).1.1.
Proof.
  intros Hcfg Hss.
  assert (∀ acc, Provision_range parse c (Servers app1) acc w
                 = Provision_range parse c (Servers app2) acc w) as Heq.
  { induction Hcfg as [|[n1 s1] [n2 s2] l1 l2 (Hn & Hl & Hr & Ht) _ IH]; [done|].
    intros acc. cbn [fst snd] in *. subst n2.
    rewrite !Provision_range_cons, Hl, Hr, Ht.
    destruct (Abs (getwd w) (Root s2)) as [rt [err|]]; [done|].
    destruct (parse (Listen s2) udp 69) as [a [err|]]; [done|].
    destruct (negb (bool_decide (Network a = udp))); [done|]. apply IH. }
  unfold Provision, bind, ret. rewrite Heq, Hss.
  by destruct (Provision_range parse c (Servers app2) (servers app2) w) as [[? ?] ?].
Qed.

End provision_more.

(** ** A run of [Start] and [Stop] *)

Section lifecycle_more.

(** X21: when every listener can be bound, [Start] returns no error,
    binds the addresses of the servers in order, starts one task for every
    server, and does nothing else. *)
Theorem Start_binds_every_server (app : TFTP) (w : World) :
  listens_ok (net_listen w) (bound w) (servers app) →
  (Start app w).1.2 = None ∧
  errGroup (Start app w).1.1 = Some (errgroup.mkGroup (map task_of (servers app)) None) ∧
  trace (Start app w).2 = trace w ++ flat_map start_events (servers app) ∧
  bound (Start app w).2 = bound w ++ map addr (servers app).
Proof.
  intros Hok. unfold Start, bind, ret. rewrite Start_range_ok by done.
  cbn [fst snd errGroup errgroup.wg errgroup.err Datatypes.app].
  by autorewrite with world.
Qed.

(** X22: after a [Start] that bound every listener, [Stop] shuts down
    every server in order and then waits.  The tasks that return being
    among those [Start] launched: when the task of every server has
    returned, [Stop] returns the first error among the tasks in the order
    in which they end and leaves no task in the group; while the task of
    a server has not returned, [Stop] blocks. *)
Theorem Start_then_Stop (app : TFTP) (sched : list (Task * option error)) (w w' : World) :
  listens_ok (net_listen w) (bound w) (servers app) →
  map fst sched ⊆+ map task_of (servers app) →
  trace (Stop (Start app w).1.1 sched w').2
  = trace w' ++ flat_map stop_events (servers app) ++ [EvWait] ∧
  (map task_of (servers app) ≡ₚ map fst sched →
   (Stop (Start app w).1.1 sched w').1.2 = Returns (first_error sched) ∧
   ∃ g, errGroup (Stop (Start app w).1.1 sched w').1.1 = Some g ∧ errgroup.wg g = []) ∧
  (¬ map task_of (servers app) ≡ₚ map fst sched →
   (Stop (Start app w).1.1 sched w').1.2 = Blocks).
Proof.
  intros Hok Hsub.
  destruct (Start_launches_all app w Hok) as [Hstart _].
  rewrite Hstart. cbn [fst].
  rewrite (Stop_run _ (errgroup.mkGroup (map task_of (servers app)) None) sched w')
    by done.
  cbn [fst snd errGroup servers]. autorewrite with world.
  destruct (foldl_done_outcome (map task_of (servers app)) sched Hsub) as [Herr Hwg].
  split_and!; [done | |].
  - intros Hp. apply Hwg in Hp. rewrite Hp, Herr. split; [done|]. by eexists.
  - intros Hn.
    destruct (errgroup.wg (foldl errgroup.done
                             (errgroup.mkGroup (map task_of (servers app)) None) sched));
      [|done].
    destruct Hn. by apply Hwg.
Qed.

End lifecycle_more.

(** ** The earliest revision of [Provision] *)

Section legacy_more.

Variable parse : gostring → gostring → N → NetworkAddress * option error.
Variable handler : gostring → option error.

(** X23: the earliest revision of [Provision] makes, for every entry,
    one server for every port of the range of its listener address, each
    with the whole address. *)
Theorem Legacy_Provision_one_server_per_port (c : Context)
  (entries : list (gostring * Server)) (acc : list Legacy.tftpServer) :
  Forall (legacy_ok parse handler) entries →
  Legacy.Provision_range parse handler c entries acc
  = (acc ++ flat_map (legacy_instances parse c) entries, None).
Proof.
  intros Hok. revert acc.
  induction Hok as [|[nm srv] entries (Hp & Hu & Hh) _ IH]; intros acc.
  { cbn. by rewrite app_nil_r. }
  cbn [Legacy.Provision_range flat_map]. unfold parsed in *. cbn [fst snd] in *.
  destruct (parse (Listen srv) udp 69) as [a [err|]] eqn:HP; [done|]. cbn [fst snd] in *.
  rewrite bool_decide_eq_true_2 by done. cbn [negb].
  rewrite Legacy_Provision_ports by done. rewrite IH, <- app_assoc.
  unfold legacy_instances at 2, parsed. cbn [fst snd]. by rewrite HP.
Qed.

End legacy_more.

(** ** The handlers before [safePath] *)

Section previous_more.
Import filepath segs.

Lemma path_Join_two a b : path.Join [a; b] = filepath.Join [a; b].
Proof.
  unfold path.Join, filepath.Join. cbn [map sum_list path.join_buf length].
  assert (bool_decide (0 < 0) = false) as H0 by (apply bool_decide_eq_false_2; lia).
  destruct a as [|x a]; destruct b as [|y b]; cbn -[Clean];
    rewrite ?H0; cbn -[Clean]; try done.
  all: rewrite ?(bool_decide_eq_false_2 (S _ = 0)) by lia.
  all: rewrite ?(bool_decide_eq_true_2 (0 < S _)) by lia; try done.
  all: cbn -[Clean]; by rewrite ?app_nil_r, <- ?app_assoc.
Qed.

Lemma segments_Join_nonsep l :
  Forall (Forall nonsep) l → l ≠ [] →
  segments (strings.Join l [Separator]) = l.
Proof.
  induction 1 as [|s l Hs Hl IH]; [done|]. intros _.
  destruct l as [|s' l].
  - by apply segments_single.
  - change (strings.Join (s :: s' :: l) [Separator])
      with (s ++ Separator :: strings.Join (s' :: l) [Separator]).
    rewrite segments_app_sep, IH by done.
    by rewrite segments_single.
Qed.

Lemma resolve_dotdots k st : resolve (replicate k dotdot) st = drop k st.
Proof.
  revert st. induction k as [|k IH]; intros st; [done|].
  change (resolve (replicate (S k) dotdot) st)
    with (resolve (replicate k dotdot) (resolve_step st dotdot)).
  assert (resolve_step st dotdot = tail st) as -> by done.
  rewrite IH. by destruct st; cbn; rewrite ?drop_nil.
Qed.

Lemma resolve_segments_dotdots k st :
  resolve (segments (strings.Join (replicate k dotdot) [Separator])) st = drop k st.
Proof.
  destruct k as [|k]; [done|].
  rewrite segments_Join_nonsep; [apply resolve_dotdots| |done].
  apply Forall_replicate. by repeat constructor.
Qed.

(** Joining a root with the climbing file name gives the path named. *)
Lemma Join_climb A B :
  Forall is_name A → Forall is_name B →
  Join [path_of A; climb A B] = path_of B.
Proof.
  intros HA HB. rewrite Join_rooted by apply IsAbs_path_of.
  unfold climb, path_of at 1 2. cbn [app]. rewrite Clean_rooted.
  rewrite !segments_app_sep, !resolve_app.
  rewrite resolve_segments_Join by done.
  rewrite resolve_segments_dotdots.
  rewrite drop_ge by (by rewrite length_reverse).
  rewrite resolve_segments_Join by done. by rewrite reverse_involutive.
Qed.

Lemma Previous_readHandler_cases s filename rf w :
  Previous.readHandler s filename rf w =
  let p := path.Join [Previous.root s; filename] in
  let lg e := EvLog (mkEntry (logger_name (Previous.log s)) ErrorLevel (ErrorText e) []) in
  match open_fault w p with
  | Some en =>
      (Some (PathError "open"%string p en),
       set_trace (trace w ++ [EvOpen p os.O_RDONLY; lg (PathError "open"%string p en)]) w)
  | None =>
      match files w !! p with
      | None =>
          (Some (PathError "open"%string p ENOENT),
           set_trace (trace w ++ [EvOpen p os.O_RDONLY;
                                  lg (PathError "open"%string p ENOENT)]) w)
      | Some content =>
          ((rf_send rf content).1.2,
           set_trace (trace w ++ [EvOpen p os.O_RDONLY;
                                  EvReadFrom p (rf_send rf content).1.1;
                                  match (rf_send rf content).1.2 with
                                  | Some e => lg e
                                  | None =>
                                      EvLog (mkEntry (logger_name (Previous.log s)) InfoLevel
                                               (Text (Previous.bytes_sent (rf_send rf content).1.1)) [])
                                  end])
             (set_now (now w + (rf_send rf content).2)%Z w))
      end
  end.
Proof.
  unfold Previous.readHandler. cbn zeta.
  unfold os.Open, os.OpenFile. step_M.
  destruct (open_fault w _) as [e|].
  { step_M. by rewrite <- !app_assoc. }
  destruct (files w !! _) as [content|] eqn:Hc.
  2:{ change (os.has_flag os.O_RDONLY os.O_CREATE) with false. cbn iota.
      step_M. by rewrite <- !app_assoc. }
  change (os.has_flag os.O_RDONLY os.O_CREATE && os.has_flag os.O_RDONLY os.O_EXCL)
    with false.
  change (os.has_flag os.O_RDONLY os.O_TRUNC) with false. cbn iota.
  unfold ReadFrom. autorewrite with world. rewrite Hc.
  change (default [] (Some content)) with content.
  destruct (rf_send rf content) as [[n err] dt]. cbn [fst snd].
  destruct err as [e|]; step_M; rewrite <- ?app_assoc; done.
Qed.

(** X24: before [safePath], the read handler was not confined to the
    root: for every root and every file there is a file name, [..] once
    for every name of the root and then the path of the file, for which
    the handler opens that file and hands its content to the transfer. *)
Theorem Previous_readHandler_reads_any_file (s : Previous.tftpServer) (rf : ReaderFrom)
  (w : World) (A B : list gostring) (content : list ascii) :
  Forall is_name A → Forall is_name B →
  Previous.root s = path_of A →
  open_fault w (path_of B) = None →
  files w !! path_of B = Some content →
  (Previous.readHandler s (climb A B) rf w).1 = (rf_send rf content).1.2 ∧
  ∃ added,
    trace (Previous.readHandler s (climb A B) rf w).2
    = trace w ++ EvOpen (path_of B) os.O_RDONLY
              :: EvReadFrom (path_of B) (rf_send rf content).1.1 :: added.
Proof.
  intros HA HB HR Hfault Hfile.
  rewrite Previous_readHandler_cases. cbn zeta.
  rewrite path_Join_two, HR, Join_climb, Hfault, Hfile by done.
  split; [done|]. autorewrite with world. by eexists.
Qed.

(** X25: before [safePath], the write handler was not confined to the
    root: with the same file name it creates any file that does not exist
    yet, with the data received. *)
Theorem Previous_writeHandler_creates_any_file (s : Previous.tftpServer) (wt : WriterTo)
  (w : World) (A B : list gostring) :
  Forall is_name A → Forall is_name B →
  Previous.root s = path_of A →
  open_fault w (path_of B) = None →
  files w !! path_of B = None →
  (Previous.writeHandler s (climb A B) wt w).1 = wt_err wt ∧
  files (Previous.writeHandler s (climb A B) wt w).2
  = <[path_of B := wt_data wt]> (files w).
Proof.
  intros HA HB HR Hfault Hfile.
  unfold Previous.writeHandler. cbn zeta.
  rewrite path_Join_two, HR, Join_climb by done.
  unfold os.OpenFile. step_M. rewrite Hfault, Hfile.
  change (os.has_flag (Z.lor os.O_WRONLY (Z.lor os.O_CREATE os.O_EXCL)) os.O_CREATE)
    with true. cbn iota.
  unfold WriteTo. autorewrite with world.
  rewrite lookup_insert_eq.
  change (default [] (Some (@nil ascii))) with (@nil ascii).
  rewrite drop_nil, app_nil_r, insert_insert_eq.
  destruct (wt_err wt) as [e|]; step_M; done.
Qed.

End previous_more.

(** ** The properties at the values of the examples *)

Section more_examples.

Lemma safePath_root_slash_accepts_all_witness :
  (safePath examples.server_slash ("../../etc/passwd"%string : gostring) examples.world).1.2 = None.
Proof.
  apply (safePath_root_slash_accepts_all examples.server_slash
           ("../../etc/passwd"%string : gostring) examples.world).
  reflexivity.
Defined.

Lemma writeHandler_keeps_other_files_witness :
  files (writeHandler examples.server ("new.bin"%string : gostring) examples.upload
           examples.world).2 !! examples.boot_bin
  = files examples.world !! examples.boot_bin.
Proof.
  apply (writeHandler_keeps_other_files examples.server ("new.bin"%string : gostring)
           examples.upload examples.world examples.boot_bin).
  vm_compute. discriminate.
Defined.

Lemma writeHandler_failed_transfer_leaves_file_witness :
  (writeHandler examples.server ("new.bin"%string : gostring) examples.upload_cut
     examples.world).1 = Some examples.closed ∧
  files (writeHandler examples.server ("new.bin"%string : gostring) examples.upload_cut
           examples.world).2
  = <[("/srv/tftp/new.bin"%string : gostring) := wt_data examples.upload_cut]>
      (files examples.world).
Proof.
  apply (writeHandler_failed_transfer_leaves_file examples.server
           ("new.bin"%string : gostring) examples.upload_cut examples.world
           ("/srv/tftp/new.bin"%string : gostring) examples.closed).
  - vm_compute. reflexivity.
  - reflexivity.
  - vm_compute. reflexivity.
  - reflexivity.
Defined.

Lemma readHandler_missing_file_witness :
  (readHandler examples.server ("missing.bin"%string : gostring) examples.download
     examples.world).1
  = Some (PathError "open"%string ("/srv/tftp/missing.bin"%string : gostring) ENOENT) ∧
  ∃ added,
    trace (readHandler examples.server ("missing.bin"%string : gostring) examples.download
             examples.world).2 = trace examples.world ++ added ∧
    Forall (λ ev, is_transfer ev = false) added.
Proof.
  apply (readHandler_missing_file examples.server ("missing.bin"%string : gostring)
           examples.download examples.world
           ("/srv/tftp/missing.bin"%string : gostring)).
  - vm_compute. reflexivity.
  - reflexivity.
  - vm_compute. reflexivity.
Defined.

Lemma handlers_reject_before_opening_witness :
  (readHandler examples.server ("../../etc/passwd"%string : gostring) examples.download
     examples.world).1 = Some unsafe_filename ∧
  (writeHandler examples.server ("../../etc/passwd"%string : gostring) examples.upload
     examples.world).1 = Some unsafe_filename.
Proof.
  destruct (handlers_reject_before_opening examples.server
              ("../../etc/passwd"%string : gostring) examples.download examples.upload
              examples.world) as (H1 & H2 & _).
  - vm_compute. discriminate.
  - split; [exact H1 | exact H2].
Defined.

Lemma upload_then_download_witness :
  (readHandler examples.server ("new.bin"%string : gostring) examples.download
     (writeHandler examples.server ("new.bin"%string : gostring) examples.upload
        examples.world).2).1
  = (rf_send examples.download (wt_data examples.upload)).1.2.
Proof.
  destruct (upload_then_download examples.server ("new.bin"%string : gostring)
              examples.upload examples.download examples.world) as [H _].
  - vm_compute. reflexivity.
  - exact H.
Defined.

Lemma Provision_stops_at_first_bad_entry_witness :
  (Provision caddy.ParseNetworkAddressWithDefaults (examples.app_of examples.config_tcp)
     examples.context examples.world).1.2 = Some only_udp ∧
  length (servers (Provision caddy.ParseNetworkAddressWithDefaults
                     (examples.app_of examples.config_tcp) examples.context
                     examples.world).1.1) = 1.
Proof.
  destruct (Provision_stops_at_first_bad_entry caddy.ParseNetworkAddressWithDefaults
              (examples.app_of examples.config_tcp) examples.context examples.world
              [(("a"%string : gostring), mkServer ":69"%string "/srv/a"%string 0 false)]
              [(("c"%string : gostring), mkServer ":6969"%string "/srv/c"%string 0 false)]
              (("b"%string : gostring), mkServer "tcp/:69"%string "/srv/b"%string 0 false))
    as [H1 H2].
  - reflexivity.
  - repeat constructor.
  - intros (_ & _ & H). vm_compute in H. discriminate H.
  - split; [exact H1 | by rewrite H2].
Defined.

Lemma Provision_roots_canonical_witness :
  Forall canonical_root
    (servers (Provision caddy.ParseNetworkAddressWithDefaults
                (examples.app_of examples.config_same_address) examples.context
                examples.world).1.1).
Proof.
  apply (Provision_roots_canonical caddy.ParseNetworkAddressWithDefaults
           (examples.app_of examples.config_same_address) examples.context examples.world).
  - intros _. reflexivity.
  - vm_compute. reflexivity.
  - constructor.
Defined.

Lemma Provision_ignores_Logs_witness :
  servers (Provision caddy.ParseNetworkAddressWithDefaults
             (examples.app_of examples.config_no_logs) examples.context examples.world).1.1
  = servers (Provision caddy.ParseNetworkAddressWithDefaults
               (examples.app_of examples.config_logs) examples.context examples.world).1.1.
Proof.
  destruct (Provision_ignores_Logs caddy.ParseNetworkAddressWithDefaults
              (examples.app_of examples.config_no_logs) (examples.app_of examples.config_logs)
              examples.context examples.world) as [_ H].
  - repeat constructor.
  - reflexivity.
  - exact H.
Defined.

Lemma Start_binds_every_server_witness :
  bound (Start (mkTFTP [] [examples.server_a; examples.server_b] (Some examples.context)
                  None) examples.world).2
  = [addr examples.server_a; addr examples.server_b].
Proof.
  destruct (Start_binds_every_server
              (mkTFTP [] [examples.server_a; examples.server_b] (Some examples.context) None)
              examples.world) as (_ & _ & _ & H).
  - cbn. split_and!; [reflexivity | reflexivity | exact I].
  - exact H.
Defined.

Lemma Start_then_Stop_witness :
  (Stop (Start (mkTFTP [] [examples.server_a; examples.server_b] (Some examples.context)
                  None) examples.world).1.1
        [(task_of examples.server_b, Some examples.closed);
         (task_of examples.server_a, None)]
        examples.world).1.2
  = Returns (Some examples.closed) ∧
  (Stop (Start (mkTFTP [] [examples.server_a; examples.server_b] (Some examples.context)
                  None) examples.world).1.1
        [(task_of examples.server_a, None)]
        examples.world).1.2
  = Blocks.
Proof.
  split.
  - apply (Start_then_Stop
             (mkTFTP [] [examples.server_a; examples.server_b] (Some examples.context) None)
             [(task_of examples.server_b, Some examples.closed);
              (task_of examples.server_a, None)]
             examples.world examples.world).
    + cbn. split_and!; [reflexivity | reflexivity | exact I].
    + apply submseteq_swap.
    + apply perm_swap.
  - apply (Start_then_Stop
             (mkTFTP [] [examples.server_a; examples.server_b] (Some examples.context) None)
             [(task_of examples.server_a, None)]
             examples.world examples.world).
    + cbn. split_and!; [reflexivity | reflexivity | exact I].
    + apply submseteq_skip, submseteq_nil_l.
    + intros H. apply Permutation_length in H. discriminate H.
Defined.

Lemma Legacy_Provision_one_server_per_port_witness :
  Legacy.Provision_range caddy.ParseNetworkAddressWithDefaults (λ _, None)
    examples.context examples.config_port_range []
  = (replicate 3
       (Legacy.mktftpServer ("pxe"%string : gostring)
          (mkNetworkAddress udp [] 6900 6902)
          (zap.Named examples.logger ("pxe"%string : gostring))),
     None).
Proof.
  apply (Legacy_Provision_one_server_per_port caddy.ParseNetworkAddressWithDefaults
           (λ _, None) examples.context examples.config_port_range []).
  repeat constructor.
Defined.

Lemma Previous_readHandler_reads_any_file_witness :
  (Previous.readHandler examples.previous_server ("../../etc/passwd"%string : gostring)
     examples.download examples.world_passwd).1 = None ∧
  ∃ added,
    trace (Previous.readHandler examples.previous_server ("../../etc/passwd"%string : gostring)
             examples.download examples.world_passwd).2
    = trace examples.world_passwd ++ EvOpen examples.passwd os.O_RDONLY
        :: EvReadFrom examples.passwd 10 :: added.
Proof.
  apply (Previous_readHandler_reads_any_file examples.previous_server examples.download
           examples.world_passwd
           [("srv"%string : gostring); ("tftp"%string : gostring)]
           [("etc"%string : gostring); ("passwd"%string : gostring)]
           ("root:x:0:0"%string : gostring)).
  - apply (bool_decide_eq_true_1 (Forall segs.is_name _)). vm_compute. reflexivity.
  - apply (bool_decide_eq_true_1 (Forall segs.is_name _)). vm_compute. reflexivity.
  - reflexivity.
  - reflexivity.
  - vm_compute. reflexivity.
Defined.

Lemma Previous_writeHandler_creates_any_file_witness :
  (Previous.writeHandler examples.previous_server ("../../etc/passwd"%string : gostring)
     examples.upload examples.world).1 = None ∧
  files (Previous.writeHandler examples.previous_server ("../../etc/passwd"%string : gostring)
           examples.upload examples.world).2
  = <[examples.passwd := wt_data examples.upload]> (files examples.world).
Proof.
  apply (Previous_writeHandler_creates_any_file examples.previous_server examples.upload
           examples.world
           [("srv"%string : gostring); ("tftp"%string : gostring)]
           [("etc"%string : gostring); ("passwd"%string : gostring)]).
  - apply (bool_decide_eq_true_1 (Forall segs.is_name _)). vm_compute. reflexivity.
  - apply (bool_decide_eq_true_1 (Forall segs.is_name _)). vm_compute. reflexivity.
  - reflexivity.
  - reflexivity.
  - vm_compute. reflexivity.
Defined.

End more_examples.
